(** * Autopeering plugin (plugins/autopeering/autopeering.go)

    A shallow embedding of the autopeering plugin of the node: the
    entry-node parser [parseEntryNodes], the neighbour validator
    [isValidNeighbor], the configuration step [configureAP], the connectivity
    self-test [checkConnection] and the supervisor [start].

    Pure Go library functions the plugin calls ([strings.Split],
    [net.SplitHostPort], [encoding/base64]) are written out; what depends on
    the host (configuration, DNS, sockets, the outcome of a Close call) is
    collected in the record [Env]. *)

From Stdlib Require Import ZArith NArith String Ascii Strings.Byte List
  DecimalString DecimalN Lia.
From stdpp Require Import base strings gmap list.

Local Open Scope string_scope.
Local Open Scope Z_scope.
Local Open Scope list_scope.

(** ** Go values *)

(** A Go [string] is a sequence of bytes; [string] is a list of [ascii]. *)

(** [%d] of a non-negative integer. *)
Definition itoa (n : N) : string := NilEmpty.string_of_uint (N.to_uint n).

(** [bytealg.IndexByteString]: index of the first [c] in [s], or -1. *)
Fixpoint IndexByteString (s : string) (c : ascii) : Z :=
  match s with
  | EmptyString => -1
  | String a s' =>
      if Ascii.eqb a c then 0
      else let r := IndexByteString s' c in
           if r <? 0 then -1 else r + 1
  end.

(** [bytealg.LastIndexByteString]: index of the last [c] in [s], or -1. *)
Fixpoint LastIndexByteString (s : string) (c : ascii) : Z :=
  match s with
  | EmptyString => -1
  | String a s' =>
      let r := LastIndexByteString s' c in
      if 0 <=? r then r + 1
      else if Ascii.eqb a c then 0 else -1
  end.

(** [len(s)]. *)
Definition len (s : string) : Z := Z.of_nat (String.length s).

(** The slice expression [s[lo:hi]], for [0 <= lo <= hi <= len(s)]. *)
Definition slice (s : string) (lo hi : Z) : string :=
  substring (Z.to_nat lo) (Z.to_nat (hi - lo)) s.

(** The index expression [s[i]], for [0 <= i < len(s)]. *)
Definition byteAt (s : string) (i : Z) : option ascii :=
  if i <? 0 then None else String.get (Z.to_nat i) s.

(** Go's [error] values, as far as the plugin builds or inspects them. *)
Inductive error : Type :=
| errorString (s : string)                (* errors.New(s) *)
| wrapError (msg : string) (err : error)  (* fmt.Errorf with one %w verb *)
| AddrError (Err Addr : string)           (* *net.AddrError *)
| CorruptInputError (n : Z).              (* base64.CorruptInputError *)

(** [strconv.FormatInt(n, 10)]. *)
Definition FormatInt (n : Z) : string :=
  if n <? 0 then "-" +:+ itoa (Z.to_N (- n)) else itoa (Z.to_N n).

(** [err.Error()]. *)
Definition Error (e : error) : string :=
  match e with
  | errorString s => s
  | wrapError msg _ => msg
  | AddrError why addr =>
      if String.eqb addr "" then why else "address " +:+ addr +:+ ": " +:+ why
  | CorruptInputError n => "illegal base64 data at input byte " +:+ FormatInt n
  end.

(** [errors.Unwrap]. *)
Definition Unwrap (e : error) : option error :=
  match e with
  | wrapError _ err => Some err
  | _ => None
  end.

#[global] Instance error_eq_dec : EqDecision error.
Proof. solve_decision. Defined.

(** [errors.Is]: [target] occurs on the [Unwrap] chain of [e]. *)
Fixpoint errors_Is (e target : error) : bool :=
  bool_decide (e = target) ||
  match e with
  | wrapError _ err => errors_Is err target
  | _ => false
  end.

(** ** strings.Split with a one-byte separator, as the plugin calls it *)

Fixpoint strings_Split (s : string) (sep : ascii) : list string :=
  match s with
  | EmptyString => [EmptyString]
  | String a s' =>
      if Ascii.eqb a sep then EmptyString :: strings_Split s' sep
      else match strings_Split s' sep with
           | h :: t => String a h :: t
           | [] => [String a EmptyString]
           end
  end.

(** ** net.SplitHostPort *)

Definition missingPort : string := "missing port in address".
Definition tooManyColons : string := "too many colons in address".

Definition addrErr (addr why : string) : error + (string * string) :=
  inl (AddrError why addr).

Definition SplitHostPort (hostport : string) : error + (string * string) :=
  (* The port starts after the last colon. *)
  let i := LastIndexByteString hostport ":" in
  if i <? 0 then addrErr hostport missingPort
  else
    let finish (host : string) (j k : Z) :=
      if 0 <=? IndexByteString (slice hostport j (len hostport)) "["
      then addrErr hostport "unexpected '[' in address"
      else if 0 <=? IndexByteString (slice hostport k (len hostport)) "]"
      then addrErr hostport "unexpected ']' in address"
      else inr (host, slice hostport (i + 1) (len hostport)) in
    if bool_decide (byteAt hostport 0 = Some "["%char) then
      (* Expect the first ']' just before the last ':'. *)
      let end_ := IndexByteString hostport "]" in
      if end_ <? 0 then addrErr hostport "missing ']' in address"
      else if end_ + 1 =? len hostport then addrErr hostport missingPort
      else if end_ + 1 =? i then finish (slice hostport 1 end_) 1 (end_ + 1)
      else if bool_decide (byteAt hostport (end_ + 1) = Some ":"%char)
      then addrErr hostport tooManyColons
      else addrErr hostport missingPort
    else
      let host := slice hostport 0 i in
      if 0 <=? IndexByteString host ":" then addrErr hostport tooManyColons
      else finish host 0 0.

(** ** Peers and their services (hive.go autopeering/peer) *)

(** A service end point: [Network()] and [String()] of a [net.Addr]. *)
Record networkAddress : Type := {
  Network : string;
  String_ : string;
}.

#[global] Instance networkAddress_eq_dec : EqDecision networkAddress.
Proof. solve_decision. Defined.

(** The service record: a map from service key to end point. *)
Abbreviation Record_ := (gmap string networkAddress).

(** [service.New()]. *)
Definition service_New : Record_ := ∅.

(** [Record.Update(key, network, address)]. *)
Definition Update (s : Record_) (key network address : string) : Record_ :=
  <[key := {| Network := network; String_ := address |}]> s.

(** [Get(key)]: the end point, or nil when the key is not registered. *)
Definition Get (s : Record_) (key : string) : option networkAddress := s !! key.

(** [service.PeeringKey]. *)
Definition PeeringKey : string := "peering".

(** Modelled from the spec: [services.GossipServiceKey()] lives in
    packages/autopeering/services, outside this file; the spec names the
    service "gossip". *)
Definition GossipServiceKey : string := "gossip".

Record Peer : Type := {
  PublicKey : list Byte.byte;
  Services : Record_;
}.

(** [peer.NewPeer(publicKey, services)]. *)
Definition NewPeer (publicKey : list Byte.byte) (services : Record_) : Peer :=
  {| PublicKey := publicKey; Services := services |}.

(** An argument of a log call or of a formatted panic. *)
Inductive arg : Type :=
| AString (s : string)
| AError (e : error)
| APeers (ps : list Peer).

(** What a panicking goroutine carries. *)
Inductive panic_value : Type :=
| NilDereference                                (* method call on a nil interface *)
| PanicError (e : error)                        (* panic(err) *)
| PanicLog (format : string) (args : list arg). (* log.Panicf *)

(** A call that returns a value or panics. *)
Inductive result (A : Type) : Type :=
| Return (a : A)
| Panic (v : panic_value).
Arguments Return {A} a.
Arguments Panic {A} v.

(** [addr.String()] on the result of [Get]: a nil interface panics. *)
Definition addr_String (a : option networkAddress) : result string :=
  match a with
  | Some a => Return (String_ a)
  | None => Panic NilDereference
  end.

(** [addr.Network()] on the result of [Get]. *)
Definition addr_Network (a : option networkAddress) : result string :=
  match a with
  | Some a => Return (Network a)
  | None => Panic NilDereference
  end.

(** ** isValidNeighbor *)

(** isValidNeighbor checks whether a peer is a valid neighbor. *)
Definition isValidNeighbor (p : Peer) : result bool :=
  (* gossip must be supported *)
  let gossipAddr := Get (Services p) GossipServiceKey in
  match gossipAddr with
  | None => Return false
  | Some g =>
      (* the host for the gossip and peering service must be identical *)
      match SplitHostPort (String_ g) with
      | inl _ => Return false
      | inr (gossipHost, _) =>
          let peeringAddr := Get (Services p) PeeringKey in
          match addr_String peeringAddr with
          | Panic v => Panic v
          | Return s =>
              match SplitHostPort s with
              | inl _ => Return false
              | inr (peeringHost, _) =>
                  Return (String.eqb gossipHost peeringHost)
              end
          end
      end
  end.

(** ** encoding/base64, StdEncoding *)

(** [enc.decodeMap]: the value of an alphabet byte, [None] for 0xff. *)
Definition decodeMap (c : ascii) : option N :=
  let n := N_of_ascii c in
  if ((65 <=? n) && (n <=? 90))%N then Some (n - 65)%N
  else if ((97 <=? n) && (n <=? 122))%N then Some (n - 71)%N
  else if ((48 <=? n) && (n <=? 57))%N then Some (n + 4)%N
  else if (n =? 43)%N then Some 62%N
  else if (n =? 47)%N then Some 63%N
  else None.

Definition padChar : ascii := "="%char.

Definition isNewline (c : ascii) : bool :=
  Ascii.eqb c "010"%char || Ascii.eqb c "013"%char.

(** The loop [for si < len(src) && (src[si] == '\n' || src[si] == '\r')]. *)
Fixpoint skipNewlines (src : string) (si : Z) : string * Z :=
  match src with
  | String c rest => if isNewline c then skipNewlines rest (si + 1) else (src, si)
  | EmptyString => (src, si)
  end.

(** The tail of [decodeQuantum]: [dlen - 1] bytes out of the sextets read. *)
Definition assemble (dbuf : list N) (dlen : nat) : list Byte.byte :=
  let d i := nth i dbuf 0%N in
  let val := N.lor (N.lor (N.shiftl (d 0%nat) 18) (N.shiftl (d 1%nat) 12))
                   (N.lor (N.shiftl (d 2%nat) 6) (d 3%nat)) in
  let b k := byte_of_ascii (ascii_of_N (N.land (N.shiftr val k) 255)) in
  firstn (dlen - 1) [b 16%N; b 8%N; b 0%N].

(** [Decode]: the quanta of [decodeQuantum] in sequence.  [src] is what is
    left of the input, [si] its index, [total] is [len(src)] of the whole
    input, [dbuf] the sextets of the current quantum, [out] the bytes
    written so far. *)
Fixpoint Decode (src : string) (si total : Z) (dbuf : list N)
    (out : list Byte.byte) : list Byte.byte * option error :=
  match src with
  | EmptyString =>
      match dbuf with
      | [] => (out, None)
      | _ => (out, Some (CorruptInputError (si - Z.of_nat (length dbuf))))
      end
  | String c rest =>
      let si := si + 1 in
      match decodeMap c with
      | Some v =>
          let dbuf := dbuf ++ [v] in
          if (length dbuf =? 4)%nat
          then Decode rest si total [] (out ++ assemble dbuf 4)
          else Decode rest si total dbuf out
      | None =>
          if isNewline c then Decode rest si total dbuf out
          else if negb (Ascii.eqb c padChar)
          then (out, Some (CorruptInputError (si - 1)))
          else
            (* We've reached the end and there's padding *)
            match length dbuf with
            | 0%nat | 1%nat =>
                (* incorrect padding *)
                (out, Some (CorruptInputError (si - 1)))
            | 2%nat =>
                let '(rest, si) := skipNewlines rest si in
                match rest with
                | EmptyString =>
                    (* not enough padding *)
                    (out, Some (CorruptInputError total))
                | String c2 rest2 =>
                    if negb (Ascii.eqb c2 padChar)
                    then (out, Some (CorruptInputError (si - 1)))
                    else
                      let '(rest3, si) := skipNewlines rest2 (si + 1) in
                      (out ++ assemble dbuf 2,
                       match rest3 with
                       | EmptyString => None
                       | _ => Some (CorruptInputError si) (* trailing garbage *)
                       end)
                end
            | _ =>
                let '(rest3, si) := skipNewlines rest si in
                (out ++ assemble dbuf 3,
                 match rest3 with
                 | EmptyString => None
                 | _ => Some (CorruptInputError si)
                 end)
            end
      end
  end.

(** [base64.StdEncoding.DecodeString]. *)
Definition DecodeString (s : string) : list Byte.byte * option error :=
  Decode s 0 (len s) [] [].

(** The alphabet of [StdEncoding]. *)
Definition encodeStd (v : N) : ascii :=
  let v := N.land v 63 in
  if (v <? 26)%N then ascii_of_N (v + 65)
  else if (v <? 52)%N then ascii_of_N (v + 71)
  else if (v <? 62)%N then ascii_of_N (v - 4)
  else if (v =? 62)%N then "+"%char else "/"%char.

Definition byteN (b : Byte.byte) : N := Byte.to_N b.

(** [base64.StdEncoding.EncodeToString]. *)
Fixpoint EncodeToString (src : list Byte.byte) : string :=
  match src with
  | [] => EmptyString
  | [a] =>
      let val := N.shiftl (byteN a) 16 in
      String (encodeStd (N.shiftr val 18))
        (String (encodeStd (N.shiftr val 12)) "==")
  | [a; b] =>
      let val := N.lor (N.shiftl (byteN a) 16) (N.shiftl (byteN b) 8) in
      String (encodeStd (N.shiftr val 18))
        (String (encodeStd (N.shiftr val 12))
           (String (encodeStd (N.shiftr val 6)) "="))
  | a :: b :: c :: rest =>
      let val := N.lor (N.lor (N.shiftl (byteN a) 16) (N.shiftl (byteN b) 8))
                       (byteN c) in
      String (encodeStd (N.shiftr val 18))
        (String (encodeStd (N.shiftr val 12))
           (String (encodeStd (N.shiftr val 6))
              (String (encodeStd val) (EncodeToString rest))))
  end.

(** ** net.JoinHostPort *)

Definition JoinHostPort (host port : string) : string :=
  (* We assume that host is a literal IPv6 address if host has colons. *)
  if 0 <=? IndexByteString host ":"
  then "[" +:+ host +:+ "]:" +:+ port
  else host +:+ ":" +:+ port.

(** ** The host of the plugin *)

(** [iputils.OriginAddress]. *)
Record OriginAddress : Type := {
  Addr : string;
  Port : N; (* uint16 *)
}.

(** The resources [start] acquires, in the order it acquires them. *)
Inductive resource : Type :=
| conn        (* net.ListenUDP *)
| trans       (* transport.Conn *)
| srv         (* server.Serve *)
| DiscoveryH  (* Discovery.Start *)
| SelectionH. (* Selection.Start *)

#[global] Instance resource_eq_dec : EqDecision resource.
Proof. solve_decision. Defined.

(** What a [Close] call does besides closing. *)
Inductive close_outcome : Type :=
| CloseOk
| CloseError (e : error)       (* the returned error is dropped by defer *)
| ClosePanic (v : panic_value).

(** Everything the plugin reads from outside this file. *)
Record Env : Type := {
  (* names declared in other files of the repository *)
  name : string;
  CFG_ENTRY_NODES : string;
  CFG_BIND : string;
  (* parameter.NodeConfig *)
  GetStringSlice : string -> list string;
  GetString : string -> string;
  GetBool : string -> bool;
  (* hive.go iputils *)
  IPAddresses : Type;
  IP : Type;
  ParseOriginAddress : string -> error + OriginAddress;
  GetIPAddressesFromHost : string -> error + IPAddresses;
  GetPreferredAddress : IPAddresses -> bool -> IP;
  ToString : IP -> string;
  (* local.GetInstance(): the local peer and its identifier *)
  local_GetInstance : Peer;
  local_ID_String : string;
  (* net and netutil *)
  UDPAddr : Type;
  ResolveUDPAddr : string -> string -> error + UDPAddr;
  CheckUDP : UDPAddr -> UDPAddr -> bool -> bool -> option error;
  ListenUDP : string -> UDPAddr -> option error;
  (* the Close method of each resource *)
  Close : resource -> close_outcome;
  (* whether a value ever arrives on the shutdown channel *)
  shutdownSignal : bool;
}.

(** ErrParsingEntryNode = errors.New("can't parse entry node") *)
Definition ErrParsingEntryNode : error := errorString "can't parse entry node".

(** ** parseEntryNodes *)

Section Parser.
Variable env : Env.

(** The body of the [for ... range] loop, over what is left of the list;
    [result] is the named result of the function. *)
Fixpoint parseEntryNodes_loop (defs : list string) (result : list Peer)
    : list Peer * option error :=
  match defs with
  | [] => (result, None)
  | entryNodeDefinition :: defs' =>
      if String.eqb entryNodeDefinition "" then
        parseEntryNodes_loop defs' result (* continue *)
      else
        let parts := strings_Split entryNodeDefinition "@" in
        if negb (length parts =? 2)%nat then
          ([], Some (wrapError
                       (Error ErrParsingEntryNode
                        +:+ ": entry node parts must be 2, is "
                        +:+ itoa (N.of_nat (length parts)))
                       ErrParsingEntryNode))
        else
          let parts0 := nth 0 parts "" in
          let parts1 := nth 1 parts "" in
          match DecodeString parts0 with
          | (_, Some err) =>
              ([], Some (wrapError
                           (Error ErrParsingEntryNode
                            +:+ ": can't decode public key: " +:+ Error err)
                           ErrParsingEntryNode))
          | (pubKey, None) =>
              match ParseOriginAddress env parts1 with
              | inl err =>
                  ([], Some (wrapError
                               (Error err +:+ ": invalid entry node address "
                                +:+ parts1) err))
              | inr entryAddr =>
                  match GetIPAddressesFromHost env (Addr entryAddr) with
                  | inl err =>
                      ([], Some (wrapError
                                   (Error err +:+ ": while handling " +:+ parts1)
                                   err))
                  | inr ipAddresses =>
                      let services := service_New in
                      let ip :=
                        ToString env
                          (GetPreferredAddress env ipAddresses
                             (GetBool env "network.prefer_ipv6")) in
                      let services :=
                        Update services PeeringKey "udp"
                          (ip +:+ ":" +:+ itoa (Port entryAddr)) in
                      parseEntryNodes_loop defs'
                        (result ++ [NewPeer pubKey services])
                  end
              end
          end
  end.

(** [parseEntryNodes] over a given list of descriptors. *)
Definition parseEntryNodes_of (descriptors : list string)
    : list Peer * option error :=
  parseEntryNodes_loop descriptors [].

Definition parseEntryNodes : list Peer * option error :=
  parseEntryNodes_of (GetStringSlice env (CFG_ENTRY_NODES env)).

(** One turn of the loop on a descriptor that is not empty, read off the
    loop: the error the function returns, or the peer it appends
    (see [parseEntryNodes_loop_cons]). *)
Definition parseEntryNode (entryNodeDefinition : string) : error + Peer :=
  let parts := strings_Split entryNodeDefinition "@" in
  if negb (length parts =? 2)%nat then
    inl (wrapError
           (Error ErrParsingEntryNode +:+ ": entry node parts must be 2, is "
            +:+ itoa (N.of_nat (length parts)))
           ErrParsingEntryNode)
  else
    let parts0 := nth 0 parts "" in
    let parts1 := nth 1 parts "" in
    match DecodeString parts0 with
    | (_, Some err) =>
        inl (wrapError
               (Error ErrParsingEntryNode +:+ ": can't decode public key: "
                +:+ Error err)
               ErrParsingEntryNode)
    | (pubKey, None) =>
        match ParseOriginAddress env parts1 with
        | inl err =>
            inl (wrapError
                   (Error err +:+ ": invalid entry node address " +:+ parts1)
                   err)
        | inr entryAddr =>
            match GetIPAddressesFromHost env (Addr entryAddr) with
            | inl err =>
                inl (wrapError (Error err +:+ ": while handling " +:+ parts1)
                       err)
            | inr ipAddresses =>
                inr (NewPeer pubKey
                       (Update service_New PeeringKey "udp"
                          (ToString env
                             (GetPreferredAddress env ipAddresses
                                (GetBool env "network.prefer_ipv6"))
                           +:+ ":" +:+ itoa (Port entryAddr))))
            end
        end
    end.

(** The text after the last colon of an end point: what [SplitHostPort]
    returns as its port. *)
Definition portOf (hostport : string) : string :=
  slice hostport (LastIndexByteString hostport ":" + 1) (len hostport).

(** A well-formed descriptor, in the words of the spec's data model: it
    splits into exactly two parts at the at sign, the first is valid base64,
    the second parses as an address, and the host of that address resolves. *)
Definition wellFormed (d : string) : Prop :=
  exists key addr pubKey entryAddr ips,
    strings_Split d "@" = [key; addr] /\
    DecodeString key = (pubKey, None) /\
    ParseOriginAddress env addr = inr entryAddr /\
    GetIPAddressesFromHost env (Addr entryAddr) = inr ips.

(** What the spec promises of the peer parsed from descriptor [d]: the
    decoded key, and one registered service, the peering end point on udp,
    whose port is the descriptor's. *)
Definition parsedFrom (d : string) (p : Peer) : Prop :=
  exists key addr entryAddr ips endpoint,
    strings_Split d "@" = [key; addr] /\
    DecodeString key = (PublicKey p, None) /\
    ParseOriginAddress env addr = inr entryAddr /\
    GetIPAddressesFromHost env (Addr entryAddr) = inr ips /\
    Get (Services p) PeeringKey = Some endpoint /\
    (forall key', key' <> PeeringKey -> Get (Services p) key' = None) /\
    Network endpoint = "udp" /\
    String_ endpoint =
      (ToString env
         (GetPreferredAddress env ips (GetBool env "network.prefer_ipv6"))
       +:+ ":" +:+ itoa (Port entryAddr)) /\
    portOf (String_ endpoint) = itoa (Port entryAddr).

End Parser.

(** ** The protocols (hive.go autopeering/discover and /selection) *)

(** What [discover.New] was given. *)
Record discover_Protocol : Type := {
  disc_local : Peer;
  disc_MasterPeers : list Peer;
}.

(** What [selection.New] was given. *)
Record selection_Protocol : Type := {
  sel_local : Peer;
  sel_disc : option discover_Protocol; (* a pointer, possibly nil *)
  sel_NeighborValidator : Peer -> result bool;
}.

(** A [server.Handler] in the list handed to [server.Serve]. *)
Inductive handler : Type :=
| HDiscovery
| HSelection.

(** ** Effects *)

Inductive level : Type := Debug | Info | Error_ | Fatal | PanicLevel.

(** What the plugin does to the outside, in the order it does it. *)
Inductive event : Type :=
| Log (l : level) (format : string) (args : list arg)
| CallCheckUDP
| CallListenUDP
| CallTransportConn
| CallServe (handlers : list handler)
| CallStart (r : resource)
| CallClose (r : resource).

(** A call registered by [defer]. *)
Inductive deferred : Type :=
| DeferLogInfo (msg : string)
| DeferClose (r : resource).

(** The package variables, the trace, and the defer stack of the running
    function (most recent first). *)
Record world : Type := {
  Discovery : option discover_Protocol;
  Selection : option selection_Protocol;
  ID : string;
  trace : list event;
  defers : list deferred;
}.

(** The package variables before [configureAP]. *)
Definition initial : world :=
  {| Discovery := None; Selection := None; ID := ""; trace := [];
     defers := [] |}.

(** How a sequence of statements ends. *)
Inductive outcome (A : Type) : Type :=
| Done (a : A)
| Panicking (v : panic_value)
| Exit (code : Z)   (* os.Exit: deferred calls do not run *)
| Blocked.          (* waiting on a channel that never delivers *)
Arguments Done {A} a.
Arguments Panicking {A} v.
Arguments Exit {A} code.
Arguments Blocked {A}.

Definition M (A : Type) : Type := world -> outcome A * world.

Definition ret {A} (a : A) : M A := fun w => (Done a, w).

Definition bind {A B} (m : M A) (k : A -> M B) : M B :=
  fun w =>
    match m w with
    | (Done a, w') => k a w'
    | (Panicking v, w') => (Panicking v, w')
    | (Exit c, w') => (Exit c, w')
    | (Blocked, w') => (Blocked, w')
    end.

Notation "'do' x <- m ; k" := (bind m (fun x => k))
  (at level 10, x name, m at level 100, k at level 200).

Definition emit (e : event) : M unit :=
  fun w => (Done tt,
            {| Discovery := Discovery w; Selection := Selection w; ID := ID w;
               trace := trace w ++ [e]; defers := defers w |}).

Definition defer (d : deferred) : M unit :=
  fun w => (Done tt,
            {| Discovery := Discovery w; Selection := Selection w; ID := ID w;
               trace := trace w; defers := d :: defers w |}).

Definition panic {A} (v : panic_value) : M A := fun w => (Panicking v, w).

(** A call that may panic, inside a sequence of statements. *)
Definition call {A} (r : result A) : M A :=
  match r with
  | Return a => ret a
  | Panic v => panic v
  end.

Definition get_Discovery : M (option discover_Protocol) :=
  fun w => (Done (Discovery w), w).
Definition get_Selection : M (option selection_Protocol) :=
  fun w => (Done (Selection w), w).

Definition set_Discovery (d : option discover_Protocol) : M unit :=
  fun w => (Done tt,
            {| Discovery := d; Selection := Selection w; ID := ID w;
               trace := trace w; defers := defers w |}).
Definition set_Selection (s : option selection_Protocol) : M unit :=
  fun w => (Done tt,
            {| Discovery := Discovery w; Selection := s; ID := ID w;
               trace := trace w; defers := defers w |}).
Definition set_ID (s : string) : M unit :=
  fun w => (Done tt,
            {| Discovery := Discovery w; Selection := Selection w; ID := s;
               trace := trace w; defers := defers w |}).

(** The logger. *)
Definition log_Info (msg : string) : M unit := emit (Log Info msg []).
Definition log_Infof (format : string) (args : list arg) : M unit :=
  emit (Log Info format args).
Definition log_Debugf (format : string) (args : list arg) : M unit :=
  emit (Log Debug format args).
Definition log_Errorf (format : string) (args : list arg) : M unit :=
  emit (Log Error_ format args).
(** [log.Fatalf] logs, then calls [os.Exit(1)]. *)
Definition log_Fatalf {A} (format : string) (args : list arg) : M A :=
  do _ <- emit (Log Fatal format args); fun w => (Exit 1, w).
(** [log.Panicf] logs, then panics with the message. *)
Definition log_Panicf {A} (format : string) (args : list arg) : M A :=
  do _ <- emit (Log PanicLevel format args); panic (PanicLog format args).

(** [<-shutdownSignal]. *)
Definition receive (delivered : bool) : M unit :=
  fun w => if delivered then (Done tt, w) else (Blocked, w).

(** ** Deferred calls *)

Definition set_defers (ds : list deferred) (w : world) : world :=
  {| Discovery := Discovery w; Selection := Selection w; ID := ID w;
     trace := trace w; defers := ds |}.

Section Plugin.
Variable env : Env.

(** Running one deferred call.  The error a [Close] returns is dropped. *)
Definition run_deferred (d : deferred) : M unit :=
  match d with
  | DeferLogInfo msg => log_Info msg
  | DeferClose r =>
      do _ <- emit (CallClose r);
      match Close env r with
      | CloseOk => ret tt
      | CloseError _ => ret tt
      | ClosePanic v => panic v
      end
  end.

(** The deferred calls run last-in-first-out when the function returns or
    panics; a deferred call that panics does not stop the ones below it. *)
Fixpoint run_defers (ds : list deferred) (st : outcome unit) (w : world)
    : outcome unit * world :=
  match ds with
  | [] => (st, w)
  | d :: ds' =>
      match run_deferred d w with
      | (Done _, w') => run_defers ds' st w'
      | (Panicking v, w') => run_defers ds' (Panicking v) w'
      | (Exit c, w') => (Exit c, w')
      | (Blocked, w') => (Blocked, w')
      end
  end.

(** A function body with its own defer stack. *)
Definition with_defers (body : M unit) : M unit :=
  fun w =>
    match body (set_defers [] w) with
    | (Exit c, w') => (Exit c, w')
    | (Blocked, w') => (Blocked, w')
    | (st, w') => run_defers (defers w') st (set_defers [] w')
    end.

(** ** configureAP *)

Definition configureAP : M unit :=
  let '(entryNodes, err) := parseEntryNodes env in
  do _ <- match err with
          | Some e => log_Errorf "Invalid entry nodes; ignoring: %v" [AError e]
          | None => ret tt
          end;
  do _ <- log_Debugf "Entry node peers: %v" [APeers entryNodes];
  do _ <- set_Discovery
            (Some {| disc_local := local_GetInstance env;
                     disc_MasterPeers := entryNodes |});
  (* enable peer selection only when gossip is enabled *)
  do d <- get_Discovery;
  set_Selection
    (Some {| sel_local := local_GetInstance env;
             sel_disc := d;
             sel_NeighborValidator := isValidNeighbor |}).

(** ** checkConnection *)

Definition checkConnection (localAddr : UDPAddr env) (self : Peer) : M unit :=
  let peering := Get (Services self) PeeringKey in
  do network <- call (addr_Network peering);
  do address <- call (addr_String peering);
  match ResolveUDPAddr env network address with
  | inl err => panic (PanicError err)
  | inr remoteAddr =>
      (* do not check the address as a NAT may change them for local
         connections *)
      do _ <- emit CallCheckUDP;
      match CheckUDP env localAddr remoteAddr false true with
      | Some err =>
          do _ <- log_Errorf "Error testing service: %s" [AError err];
          log_Panicf "Please check that HORNET is publicly reachable at %s/%s"
            [AString address; AString network]
      | None => ret tt
      end
  end.

(** ** start *)

(** [ptr.Start(srv)] on a package variable: a nil protocol panics. *)
Definition protocol_Start {P} (p : option P) (r : resource) : M unit :=
  match p with
  | Some _ => emit (CallStart r)
  | None => panic NilDereference
  end.

Definition start_body : M unit :=
  do _ <- defer (DeferLogInfo "Stopping Autopeering ... done");
  let lPeer := local_GetInstance env in
  (* use the port of the peering service *)
  let peeringAddr := Get (Services lPeer) PeeringKey in
  do peeringString <- call (addr_String peeringAddr);
  match SplitHostPort peeringString with
  | inl err => panic (PanicError err)
  | inr (_, peeringPort) =>
      (* resolve the bind address *)
      let address := JoinHostPort (GetString env (CFG_BIND env)) peeringPort in
      do network <- call (addr_Network peeringAddr);
      match ResolveUDPAddr env network address with
      | inl err =>
          log_Fatalf "Error resolving %s: %v"
            [AString (CFG_BIND env); AError err]
      | inr localAddr =>
          (* check that discovery is working and the port is open *)
          do _ <- log_Info "Testing service ...";
          do _ <- checkConnection localAddr lPeer;
          do _ <- log_Info "Testing service ... done";
          do _ <- emit CallListenUDP;
          match ListenUDP env network localAddr with
          | Some err => log_Fatalf "Error listening: %v" [AError err]
          | None =>
              do _ <- defer (DeferClose conn);
              (* use the UDP connection for transport *)
              do _ <- emit CallTransportConn;
              do _ <- defer (DeferClose trans);
              do sel <- get_Selection;
              let handlers :=
                [HDiscovery] ++
                match sel with Some _ => [HSelection] | None => [] end in
              (* start a server doing discovery and peering *)
              do _ <- emit (CallServe handlers);
              do _ <- defer (DeferClose srv);
              (* start the discovery on that connection *)
              do disc <- get_Discovery;
              do _ <- protocol_Start disc DiscoveryH;
              do _ <- defer (DeferClose DiscoveryH);
              do sel <- get_Selection;
              do _ <- match sel with
                      | Some _ =>
                          (* start the peering on that connection *)
                          do _ <- protocol_Start sel SelectionH;
                          defer (DeferClose SelectionH)
                      | None => ret tt
                      end;
              do _ <- log_Infof (name env +:+ " started: Address=%s/%s")
                        [AString peeringString; AString network];
              do _ <- set_ID (local_ID_String env);
              do _ <- log_Infof (name env +:+ " started: ID=%s PublicKey=%s")
                        [AString (local_ID_String env);
                         AString (EncodeToString (PublicKey lPeer))];
              do _ <- receive (shutdownSignal env);
              log_Info "Stopping Autopeering ..."
          end
      end
  end.

Definition start : M unit := with_defers start_body.

(** Every step of [start] before the sockets are wrapped succeeds: the local
    peer has a peering end point [a] that splits, the bind address and the
    advertised address resolve, the self-test passes and the socket binds. *)
Definition startupSucceeds (a : networkAddress) (host port : string)
    (localAddr remoteAddr : UDPAddr env) : Prop :=
  Get (Services (local_GetInstance env)) PeeringKey = Some a /\
  SplitHostPort (String_ a) = inr (host, port) /\
  ResolveUDPAddr env (Network a)
    (JoinHostPort (GetString env (CFG_BIND env)) port) = inr localAddr /\
  ResolveUDPAddr env (Network a) (String_ a) = inr remoteAddr /\
  CheckUDP env localAddr remoteAddr false true = None /\
  ListenUDP env (Network a) localAddr = None.

End Plugin.

(** The trace of a startup in which every step succeeds, up to the wait
    for the shutdown signal; [a] is the local peering end point and [sel]
    tells whether the package variable [Selection] is set. *)
Definition startupTrace (env : Env) (a : networkAddress) (sel : bool)
    : list event :=
  [Log Info "Testing service ..." [];
   CallCheckUDP;
   Log Info "Testing service ... done" [];
   CallListenUDP;
   CallTransportConn;
   CallServe ([HDiscovery] ++ if sel then [HSelection] else []);
   CallStart DiscoveryH] ++
  (if sel then [CallStart SelectionH] else []) ++
  [Log Info (name env +:+ " started: Address=%s/%s")
     [AString (String_ a); AString (Network a)];
   Log Info (name env +:+ " started: ID=%s PublicKey=%s")
     [AString (local_ID_String env);
      AString (EncodeToString (PublicKey (local_GetInstance env)))]].

(** The teardown, in the order the spec gives it. *)
Definition teardownTrace (sel : bool) : list event :=
  (if sel then [CallClose SelectionH] else []) ++
  [CallClose DiscoveryH; CallClose srv; CallClose trans; CallClose conn].

(** What a deferred call shows in the trace when it runs. *)
Definition event_of (d : deferred) : event :=
  match d with
  | DeferLogInfo msg => Log Info msg []
  | DeferClose r => CallClose r
  end.

(** The session got as far as serving: a protocol was started or the server
    was set up. *)
Definition servingEvent (e : event) : Prop :=
  match e with
  | CallServe _ | CallStart _ => True
  | _ => False
  end.

(** The outcome ends the process or unwinds the goroutine. *)
Definition fatal {A} (o : outcome A) : Prop :=
  match o with
  | Panicking _ | Exit _ => True
  | Done _ | Blocked => False
  end.

(** ** A concrete host, to run the plugin on *)

Module Sample.

(** [host:port] with a decimal port below 65536. *)
Definition parseOrigin (s : string) : error + OriginAddress :=
  match SplitHostPort s with
  | inl err => inl err
  | inr (host, port) =>
      match NilEmpty.uint_of_string port with
      | Some u =>
          if (N.of_uint u <? 65536)%N
          then inr {| Addr := host; Port := N.of_uint u |}
          else inl (errorString "invalid port")
      | None => inl (errorString "invalid port")
      end
  end.

(** Every host but the empty one and [unknown.invalid] resolves to itself. *)
Definition resolve (host : string) : error + list string :=
  if String.eqb host "" || String.eqb host "unknown.invalid"
  then inl (errorString "could not resolve host")
  else inr [host].

Definition localPeer : Peer :=
  NewPeer ["001"%byte; "002"%byte; "003"%byte]
    (Update (Update service_New PeeringKey "udp" "192.0.2.7:14626")
       GossipServiceKey "tcp" "192.0.2.7:15600").

(** A host on which everything works unless told otherwise: [entryNodes]
    is the configured list, [check] and [listen] are what [CheckUDP] and
    [ListenUDP] answer, [close] what each [Close] does, [signal] whether
    shutdown is ever signalled. *)
Definition host (entryNodes : list string) (check listen : option error)
    (close : resource -> close_outcome) (signal : bool) : Env :=
  {| name := "Autopeering";
     CFG_ENTRY_NODES := "network.autopeering.entryNodes";
     CFG_BIND := "network.autopeering.bindAddress";
     GetStringSlice := fun _ => entryNodes;
     GetString := fun _ => "0.0.0.0";
     GetBool := fun _ => false;
     IPAddresses := list string;
     IP := string;
     ParseOriginAddress := parseOrigin;
     GetIPAddressesFromHost := resolve;
     GetPreferredAddress := fun ips _ => hd "" ips;
     ToString := fun ip => ip;
     local_GetInstance := localPeer;
     local_ID_String := "2bWh1MSEXZE8";
     UDPAddr := string;
     ResolveUDPAddr := fun _ address => inr address;
     CheckUDP := fun _ _ _ _ => check;
     ListenUDP := fun _ _ => listen;
     Close := close;
     shutdownSignal := signal |}.

Definition quiet : Env := host [] None None (fun _ => CloseOk) true.

(** Closing the discovery protocol panics, every other close returns an
    error. *)
Definition badClose (r : resource) : close_outcome :=
  match r with
  | DiscoveryH => ClosePanic (PanicError (errorString "close of closed channel"))
  | _ => CloseError (errorString "use of closed network connection")
  end.

(** A host on which every [Close] goes wrong. *)
Definition closing : Env := host [] None None badClose true.

(** The package variables after [configureAP]. *)
Definition configured (env : Env) : world := snd (configureAP env initial).

(** A candidate advertising the two end points. *)
Definition candidate (gossip peering : string) : Peer :=
  NewPeer []
    (Update (Update service_New PeeringKey "udp" peering)
       GossipServiceKey "tcp" gossip).

(** A candidate with a gossip end point only. *)
Definition gossipOnly (gossip : string) : Peer :=
  NewPeer [] (Update service_New GossipServiceKey "tcp" gossip).

End Sample.

(** ** Counting and joining, for the shape of a descriptor *)

(** [strings.Count(s, sep)] for a one-byte separator. *)
Fixpoint strings_Count (s : string) (sep : ascii) : nat :=
  match s with
  | EmptyString => 0
  | String a s' =>
      if Ascii.eqb a sep then S (strings_Count s' sep) else strings_Count s' sep
  end.

(** [strings.Join(parts, sep)] for a one-byte separator. *)
Fixpoint strings_Join (parts : list string) (sep : ascii) : string :=
  match parts with
  | [] => EmptyString
  | [p] => p
  | p :: parts' => p +:+ String sep (strings_Join parts' sep)
  end.

(** ** Reading a trace *)

(** The resource a call hands out.  [CallListenUDP] hands out the socket
    when the call succeeds; when it fails [start] exits the process. *)
Definition acquires (e : event) : option resource :=
  match e with
  | CallListenUDP => Some conn
  | CallTransportConn => Some trans
  | CallServe _ => Some srv
  | CallStart r => Some r
  | _ => None
  end.

(** The resource a call closes. *)
Definition closes (e : event) : option resource :=
  match e with
  | CallClose r => Some r
  | _ => None
  end.

(** The resources handed out, and those closed, in the order of the trace. *)
Definition acquired (evs : list event) : list resource := omap acquires evs.
Definition closed (evs : list event) : list resource := omap closes evs.

(** The slice expression [s[n:]]. *)
Fixpoint tail_from (n : nat) (s : string) : string :=
  match n, s with
  | O, _ => s
  | S n', String _ s' => tail_from n' s'
  | S _, EmptyString => EmptyString
  end.

(** ** One more host *)

(** The example host, but its local peer advertises a peering address
    without a port. *)
Definition portlessHost : Env :=
  {| name := "Autopeering";
     CFG_ENTRY_NODES := "network.autopeering.entryNodes";
     CFG_BIND := "network.autopeering.bindAddress";
     GetStringSlice := fun _ => [];
     GetString := fun _ => "0.0.0.0";
     GetBool := fun _ => false;
     IPAddresses := list string;
     IP := string;
     ParseOriginAddress := Sample.parseOrigin;
     GetIPAddressesFromHost := Sample.resolve;
     GetPreferredAddress := fun ips _ => hd "" ips;
     ToString := fun ip => ip;
     local_GetInstance :=
       NewPeer [] (Update service_New PeeringKey "udp" "192.0.2.7");
     local_ID_String := "2bWh1MSEXZE8";
     UDPAddr := string;
     ResolveUDPAddr := fun _ address => inr address;
     CheckUDP := fun _ _ _ _ => None;
     ListenUDP := fun _ _ => None;
     Close := fun _ => CloseOk;
     shutdownSignal := true |}.

(** ** Decimal text *)

(** The value of a decimal digit. *)
Definition digit (c : ascii) : option N :=
  let n := N_of_ascii c in
  if ((48 <=? n) && (n <=? 57))%N then Some (n - 48)%N else None.

(** The digits of [s] read from the left onto [acc]. *)
Fixpoint decimal_from (acc : N) (s : string) : option N :=
  match s with
  | EmptyString => Some acc
  | String c s' =>
      match digit c with
      | Some v => decimal_from (acc * 10 + v)%N s'
      | None => None
      end
  end.

(** The number a text of decimal digits denotes; no number for the empty
    text or a text with any other character. *)
Definition decimal (s : string) : option N :=
  match s with
  | EmptyString => None
  | _ => decimal_from 0%N s
  end.

(** ** Descriptors of the form key, at sign, host, colon, port *)

Section HostPort.
Variable env : Env.

(** A descriptor [pubkey@host:port] that is well formed on this host: the
    key holds no at sign and is valid base64, the host holds no at sign and
    resolves, the port is a decimal number, and the host's address parser
    reads [host:port] as that host and that number. *)
Definition hostPortDescriptor (d : string) : Prop :=
  exists key host port pubKey n ips,
    d = key +:+ "@" +:+ host +:+ ":" +:+ port /\
    strings_Count key "@" = 0%nat /\
    strings_Count host "@" = 0%nat /\
    DecodeString key = (pubKey, None) /\
    decimal port = Some n /\
    ParseOriginAddress env (host +:+ ":" +:+ port)
    = inr {| Addr := host; Port := n |} /\
    GetIPAddressesFromHost env host = inr ips.

(** The peer [p] is the entry node of descriptor [d]: it is [parsedFrom]
    it, and the port of its peering end point, read as a number, is the
    number written after the last colon of the descriptor. *)
Definition entryNodeOf (d : string) (p : Peer) : Prop :=
  parsedFrom env d p /\
  exists n endpoint,
    decimal (portOf d) = Some n /\
    Get (Services p) PeeringKey = Some endpoint /\
    decimal (portOf (String_ endpoint)) = Some n.

End HostPort.

(** ** Tactics *)

(** Runs the statements of a function body as far as the host's answers are
    known. *)
Ltac exec :=
  cbv beta iota zeta delta
    [bind ret call panic emit defer get_Discovery get_Selection set_Discovery
     set_Selection set_ID log_Info log_Infof log_Debugf log_Errorf log_Fatalf
     log_Panicf receive protocol_Start addr_String addr_Network start_body
     checkConnection set_defers Discovery Selection ID trace defers
     start with_defers run_defers run_deferred fst snd].

(** Closes a case of a failed startup: the outcome is fatal, the trace grew
    by events that are all before serving, and [ID] is unchanged. *)
Ltac failed_startup :=
  eexists; repeat apply conj;
  [ exact I
  | rewrite <- ?app_assoc; try reflexivity; symmetry; apply app_nil_r
  | simpl; repeat constructor; intros []
  | reflexivity ].

(** Closes a path of [start_body]: the package variables, the events, and
    the closes stacked against what was acquired. *)
Ltac path_leaf :=
  repeat apply conj;
  [ reflexivity
  | reflexivity
  | first [left; reflexivity | right; reflexivity]
  | eexists; split;
    [ rewrite <- ?app_assoc; try reflexivity; symmetry; apply app_nil_r
    | repeat apply conj; reflexivity ] ].

(** Shifts and masks by constants as division and remainder. *)
Ltac to_arith :=
  rewrite ?N.shiftr_div_pow2;
  change 63%N with (N.ones 6); change 255%N with (N.ones 8);
  rewrite ?N.land_ones; simpl N.pow.

Ltac euclid := zify; Z.to_euclidean_division_equations; lia.

(** * Properties *)

(** ** The neighbour validator *)

Section Validator.
Implicit Types (p q : Peer) (g e : networkAddress).

Lemma isValidNeighbor_no_gossip p :
  Get (Services p) GossipServiceKey = None ->
  isValidNeighbor p = Return false.
Proof. unfold isValidNeighbor. now intros ->. Qed.

Lemma isValidNeighbor_bad_gossip p g err :
  Get (Services p) GossipServiceKey = Some g ->
  SplitHostPort (String_ g) = inl err ->
  isValidNeighbor p = Return false.
Proof. unfold isValidNeighbor. now intros -> ->. Qed.

Lemma isValidNeighbor_bad_peering p e err :
  Get (Services p) PeeringKey = Some e ->
  SplitHostPort (String_ e) = inl err ->
  isValidNeighbor p = Return false.
Proof.
  unfold isValidNeighbor. intros He Herr.
  destruct (Get (Services p) GossipServiceKey) as [g|]; [|reflexivity].
  destruct (SplitHostPort (String_ g)) as [?|[gh gp]]; [reflexivity|].
  rewrite He. simpl. now rewrite Herr.
Qed.

Lemma isValidNeighbor_no_peering p g gh gp :
  Get (Services p) GossipServiceKey = Some g ->
  SplitHostPort (String_ g) = inr (gh, gp) ->
  Get (Services p) PeeringKey = None ->
  isValidNeighbor p = Panic NilDereference.
Proof. unfold isValidNeighbor. now intros -> -> ->. Qed.

Lemma isValidNeighbor_hosts p g e gh gp eh ep :
  Get (Services p) GossipServiceKey = Some g ->
  Get (Services p) PeeringKey = Some e ->
  SplitHostPort (String_ g) = inr (gh, gp) ->
  SplitHostPort (String_ e) = inr (eh, ep) ->
  isValidNeighbor p = Return (String.eqb gh eh).
Proof. unfold isValidNeighbor. intros -> -> -> Hp. simpl. now rewrite Hp. Qed.

Lemma isValidNeighbor_true p :
  isValidNeighbor p = Return true <->
  exists g e gh gp eh ep,
    Get (Services p) GossipServiceKey = Some g /\
    Get (Services p) PeeringKey = Some e /\
    SplitHostPort (String_ g) = inr (gh, gp) /\
    SplitHostPort (String_ e) = inr (eh, ep) /\
    gh = eh.
Proof.
  split.
  - unfold isValidNeighbor.
    destruct (Get (Services p) GossipServiceKey) as [g|] eqn:Hg; [|discriminate].
    destruct (SplitHostPort (String_ g)) as [?|[gh gp]] eqn:Hsg; [discriminate|].
    destruct (Get (Services p) PeeringKey) as [e|] eqn:He; [|discriminate].
    simpl.
    destruct (SplitHostPort (String_ e)) as [?|[eh ep]] eqn:Hse; [discriminate|].
    intros [= Heq]. apply String.eqb_eq in Heq.
    now exists g, e, gh, gp, eh, ep.
  - intros (g & e & gh & gp & eh & ep & Hg & He & Hsg & Hse & ->).
    rewrite (isValidNeighbor_hosts _ _ _ _ _ _ _ Hg He Hsg Hse).
    now rewrite String.eqb_refl.
Qed.

Lemma isValidNeighbor_panics p v :
  isValidNeighbor p = Panic v <->
  v = NilDereference /\
  Get (Services p) PeeringKey = None /\
  exists g gh gp,
    Get (Services p) GossipServiceKey = Some g /\
    SplitHostPort (String_ g) = inr (gh, gp).
Proof.
  split.
  - unfold isValidNeighbor.
    destruct (Get (Services p) GossipServiceKey) as [g|] eqn:Hg; [|discriminate].
    destruct (SplitHostPort (String_ g)) as [?|[gh gp]] eqn:Hsg; [discriminate|].
    destruct (Get (Services p) PeeringKey) as [e|] eqn:He; simpl.
    + destruct (SplitHostPort (String_ e)) as [?|[eh ep]]; discriminate.
    + intros [= <-]. repeat split. now exists g, gh, gp.
  - intros (-> & He & g & gh & gp & Hg & Hsg).
    eapply isValidNeighbor_no_peering; eauto.
Qed.

Lemma isValidNeighbor_returns p e :
  Get (Services p) PeeringKey = Some e ->
  exists b, isValidNeighbor p = Return b.
Proof.
  intros He. destruct (isValidNeighbor p) as [b|v] eqn:Hv; [now exists b|].
  apply isValidNeighbor_panics in Hv as (_ & Hnone & _). congruence.
Qed.

End Validator.

(** C1: [isValidNeighbor] returns true exactly when the candidate has a
    gossip service registered, the gossip and the peering end point both
    split into host and port, and the two hosts are equal.  It returns false
    when no gossip service is registered, when the gossip end point does not
    split, and when the peering end point does not split.  The ports play no
    part: two candidates whose end points split into the same hosts get the
    same answer, whatever their ports. *)
Theorem isValidNeighbor_accepts_iff_same_host (p : Peer) :
  (isValidNeighbor p = Return true <->
   exists g e gh gp eh ep,
     Get (Services p) GossipServiceKey = Some g /\
     Get (Services p) PeeringKey = Some e /\
     SplitHostPort (String_ g) = inr (gh, gp) /\
     SplitHostPort (String_ e) = inr (eh, ep) /\
     gh = eh) /\
  (Get (Services p) GossipServiceKey = None ->
   isValidNeighbor p = Return false) /\
  (forall g err,
     Get (Services p) GossipServiceKey = Some g ->
     SplitHostPort (String_ g) = inl err ->
     isValidNeighbor p = Return false) /\
  (forall e err,
     Get (Services p) PeeringKey = Some e ->
     SplitHostPort (String_ e) = inl err ->
     isValidNeighbor p = Return false) /\
  (forall q g e g' e' gh eh gp ep gp' ep',
     Get (Services p) GossipServiceKey = Some g ->
     Get (Services p) PeeringKey = Some e ->
     Get (Services q) GossipServiceKey = Some g' ->
     Get (Services q) PeeringKey = Some e' ->
     SplitHostPort (String_ g) = inr (gh, gp) ->
     SplitHostPort (String_ e) = inr (eh, ep) ->
     SplitHostPort (String_ g') = inr (gh, gp') ->
     SplitHostPort (String_ e') = inr (eh, ep') ->
     isValidNeighbor p = isValidNeighbor q).
Proof.
  split; [apply isValidNeighbor_true|].
  split; [apply isValidNeighbor_no_gossip|].
  split; [intros g err; apply isValidNeighbor_bad_gossip|].
  split; [intros e err; apply isValidNeighbor_bad_peering|].
  intros q g e g' e' gh eh gp ep gp' ep' Hg He Hg' He' Hsg Hse Hsg' Hse'.
  rewrite (isValidNeighbor_hosts _ _ _ _ _ _ _ Hg He Hsg Hse).
  now rewrite (isValidNeighbor_hosts _ _ _ _ _ _ _ Hg' He' Hsg' Hse').
Qed.

(** The candidates of the spec's examples: same host and different ports
    is accepted, and agrees with any other choice of ports. *)
Lemma isValidNeighbor_accepts_iff_same_host_witness :
  isValidNeighbor (Sample.candidate "10.0.0.1:15600" "10.0.0.1:14626")
    = Return true /\
  isValidNeighbor (Sample.candidate "10.0.0.1:15600" "10.0.0.1:14626")
    = isValidNeighbor (Sample.candidate "10.0.0.1:1" "10.0.0.1:2").
Proof.
  pose proof (isValidNeighbor_accepts_iff_same_host
                (Sample.candidate "10.0.0.1:15600" "10.0.0.1:14626"))
    as (Hiff & _ & _ & _ & Hports).
  split.
  - apply Hiff.
    exists {| Network := "tcp"; String_ := "10.0.0.1:15600" |},
           {| Network := "udp"; String_ := "10.0.0.1:14626" |},
           "10.0.0.1", "15600", "10.0.0.1", "14626".
    repeat split; vm_compute; reflexivity.
  - eapply (Hports (Sample.candidate "10.0.0.1:1" "10.0.0.1:2"));
      vm_compute; reflexivity.
Defined.

(** C2: the only way [isValidNeighbor] fails to return is the nil
    dereference of the peering end point: it panics exactly when the gossip
    end point is registered and splits while no peering service is
    registered; with a peering service registered it always returns. *)
Theorem isValidNeighbor_total_only_with_peering (p : Peer) :
  (forall e, Get (Services p) PeeringKey = Some e ->
             exists b, isValidNeighbor p = Return b) /\
  (forall g gh gp,
     Get (Services p) GossipServiceKey = Some g ->
     SplitHostPort (String_ g) = inr (gh, gp) ->
     Get (Services p) PeeringKey = None ->
     isValidNeighbor p = Panic NilDereference) /\
  (forall v,
     isValidNeighbor p = Panic v <->
     v = NilDereference /\
     Get (Services p) PeeringKey = None /\
     exists g gh gp,
       Get (Services p) GossipServiceKey = Some g /\
       SplitHostPort (String_ g) = inr (gh, gp)).
Proof.
  split; [intros e; apply isValidNeighbor_returns|].
  split; [intros g gh gp; apply isValidNeighbor_no_peering|].
  intros v. apply isValidNeighbor_panics.
Qed.

(** A candidate with a well-formed gossip end point and nothing else. *)
Lemma isValidNeighbor_total_only_with_peering_witness :
  isValidNeighbor (Sample.gossipOnly "10.0.0.1:15600") = Panic NilDereference.
Proof.
  pose proof (isValidNeighbor_total_only_with_peering
                (Sample.gossipOnly "10.0.0.1:15600")) as (_ & Hnil & _).
  apply (Hnil {| Network := "tcp"; String_ := "10.0.0.1:15600" |}
              "10.0.0.1" "15600"); vm_compute; reflexivity.
Defined.

(** ** Strings *)

Lemma append_String x a b : String x a +:+ b = String x (a +:+ b).
Proof. reflexivity. Qed.

Lemma append_empty b : "" +:+ b = b.
Proof. reflexivity. Qed.

Lemma length_append u v :
  String.length (u +:+ v) = (String.length u + String.length v)%nat.
Proof.
  induction u as [|x u IH]; [reflexivity|].
  rewrite append_String. simpl. now rewrite IH.
Qed.

Lemma len_nonneg s : 0 <= len s.
Proof. unfold len. lia. Qed.

Lemma len_String a s : len (String a s) = len s + 1.
Proof. unfold len. simpl String.length. lia. Qed.

Lemma LastIndexByteString_app_sep a b c :
  LastIndexByteString b c = -1 ->
  LastIndexByteString (a +:+ String c b) c = len a.
Proof.
  intros Hb. induction a as [|x a IH].
  - rewrite append_empty. simpl. rewrite Hb. simpl. now rewrite Ascii.eqb_refl.
  - rewrite append_String. simpl. rewrite IH, len_String.
    pose proof (len_nonneg a).
    destruct (0 <=? len a) eqn:E; [reflexivity|].
    apply Z.leb_gt in E. lia.
Qed.

Lemma substring_all b : substring 0 (String.length b) b = b.
Proof. induction b as [|y b IHb]; simpl; [reflexivity|now rewrite IHb]. Qed.

Lemma substring_skip a b :
  substring (String.length a) (String.length b) (a +:+ b) = b.
Proof.
  induction a as [|x a IH]; [apply substring_all|].
  rewrite append_String. exact IH.
Qed.

Lemma slice_after_sep a b c :
  slice (a +:+ String c b) (len a + 1) (len (a +:+ String c b)) = b.
Proof.
  unfold slice, len.
  replace (a +:+ String c b) with ((a +:+ String c "") +:+ b).
  2:{ induction a as [|x a IH]; [reflexivity|].
      rewrite !append_String. now rewrite IH. }
  rewrite !length_append. simpl String.length.
  replace (Z.to_nat (Z.of_nat (String.length a) + 1))
    with (String.length a + 1)%nat by lia.
  replace (Z.to_nat (Z.of_nat (String.length a + 1 + String.length b)
                     - (Z.of_nat (String.length a) + 1)))
    with (String.length b) by lia.
  change 1%nat with (String.length (String c "")).
  rewrite <- length_append. apply substring_skip.
Qed.

Lemma string_of_uint_no_colon d :
  LastIndexByteString (NilEmpty.string_of_uint d) ":" = -1.
Proof. induction d; simpl; rewrite ?IHd; reflexivity. Qed.

Lemma itoa_no_colon n : LastIndexByteString (itoa n) ":" = -1.
Proof. apply string_of_uint_no_colon. Qed.

Lemma portOf_joined ip n : portOf (ip +:+ ":" +:+ itoa n) = itoa n.
Proof.
  unfold portOf.
  change (ip +:+ ":" +:+ itoa n) with (ip +:+ String ":" (itoa n)).
  rewrite LastIndexByteString_app_sep by apply itoa_no_colon.
  apply slice_after_sep.
Qed.

(** What [SplitHostPort] returns as the port is [portOf]. *)
Lemma SplitHostPort_port hostport host port :
  SplitHostPort hostport = inr (host, port) -> port = portOf hostport.
Proof.
  unfold SplitHostPort, portOf, addrErr.
  repeat match goal with
         | |- context [if ?b then _ else _] => destruct b
         end; congruence.
Qed.

(** ** The entry-node parser *)

Section ParserFacts.
Variable env : Env.
Implicit Types (d : string) (l defs : list string) (acc ps : list Peer).

(** The loop, one turn at a time. *)
Lemma parseEntryNodes_loop_cons d defs acc :
  parseEntryNodes_loop env (d :: defs) acc =
  if String.eqb d "" then parseEntryNodes_loop env defs acc
  else match parseEntryNode env d with
       | inl err => ([], Some err)
       | inr p => parseEntryNodes_loop env defs (acc ++ [p])
       end.
Proof.
  unfold parseEntryNode. simpl parseEntryNodes_loop.
  destruct (String.eqb d ""); [reflexivity|].
  destruct (negb _); [reflexivity|].
  destruct (DecodeString _) as [pubKey [err|]]; [reflexivity|].
  destruct (ParseOriginAddress env _); [reflexivity|].
  destruct (GetIPAddressesFromHost env _); reflexivity.
Qed.

Lemma parseEntryNodes_loop_nil acc :
  parseEntryNodes_loop env [] acc = (acc, None).
Proof. reflexivity. Qed.

(** A descriptor alone. *)
Lemma parseEntryNodes_of_single d :
  parseEntryNodes_of env [d] =
  if String.eqb d "" then ([], None)
  else match parseEntryNode env d with
       | inl err => ([], Some err)
       | inr p => ([p], None)
       end.
Proof.
  unfold parseEntryNodes_of. rewrite parseEntryNodes_loop_cons.
  destruct (String.eqb d ""); [reflexivity|].
  destruct (parseEntryNode env d); reflexivity.
Qed.

(** The peers found so far only ever grow at the end. *)
Lemma parseEntryNodes_loop_acc defs acc :
  parseEntryNodes_loop env defs acc =
  match parseEntryNodes_loop env defs [] with
  | (ps, None) => (acc ++ ps, None)
  | (_, Some err) => ([], Some err)
  end.
Proof.
  revert acc. induction defs as [|d defs IH]; intros acc.
  - rewrite !parseEntryNodes_loop_nil. now rewrite app_nil_r.
  - rewrite !parseEntryNodes_loop_cons.
    destruct (String.eqb d ""); [apply IH|].
    destruct (parseEntryNode env d) as [err|p]; [reflexivity|].
    rewrite (IH (acc ++ [p])), (IH ([] ++ [p])).
    destruct (parseEntryNodes_loop env defs []) as [ps [err|]]; [reflexivity|].
    now rewrite <- app_assoc.
Qed.

Lemma parseEntryNodes_loop_app l1 l2 acc :
  parseEntryNodes_loop env (l1 ++ l2) acc =
  match parseEntryNodes_loop env l1 acc with
  | (ps, None) => parseEntryNodes_loop env l2 ps
  | (_, Some err) => ([], Some err)
  end.
Proof.
  revert acc. induction l1 as [|d l1 IH]; intros acc; [reflexivity|].
  rewrite <- app_comm_cons, !parseEntryNodes_loop_cons.
  destruct (String.eqb d ""); [apply IH|].
  destruct (parseEntryNode env d) as [err|p]; [reflexivity|apply IH].
Qed.

(** An error comes with no peers. *)
Lemma parseEntryNodes_loop_error defs acc ps err :
  parseEntryNodes_loop env defs acc = (ps, Some err) -> ps = [].
Proof.
  rewrite parseEntryNodes_loop_acc.
  destruct (parseEntryNodes_loop env defs []) as [ps' [err'|]]; congruence.
Qed.

(** Empty descriptors. *)
Lemma parseEntryNodes_loop_skip_empty defs acc :
  parseEntryNodes_loop env ("" :: defs) acc = parseEntryNodes_loop env defs acc.
Proof. now rewrite parseEntryNodes_loop_cons. Qed.

Lemma parseEntryNodes_loop_filter defs acc :
  parseEntryNodes_loop env (filter (fun d => d <> "") defs) acc
  = parseEntryNodes_loop env defs acc.
Proof.
  revert acc. induction defs as [|d defs IH]; intros acc; [reflexivity|].
  rewrite filter_cons, (parseEntryNodes_loop_cons d defs).
  destruct (decide (d <> "")) as [Hd|Hd].
  - rewrite parseEntryNodes_loop_cons.
    apply String.eqb_neq in Hd. rewrite Hd.
    destruct (parseEntryNode env d); [reflexivity|apply IH].
  - apply dec_stable in Hd. subst d. apply IH.
Qed.

(** A descriptor that fails alone makes every list that holds it fail. *)
Lemma parseEntryNodes_loop_In_error d err defs acc :
  d <> "" ->
  parseEntryNode env d = inl err ->
  In d defs ->
  snd (parseEntryNodes_loop env defs acc) <> None.
Proof.
  intros Hd Herr. revert acc.
  induction defs as [|x defs IH]; intros acc Hin; [destruct Hin|].
  rewrite parseEntryNodes_loop_cons.
  destruct Hin as [->|Hin].
  - apply String.eqb_neq in Hd. rewrite Hd, Herr. discriminate.
  - destruct (String.eqb x ""); [now apply IH|].
    destruct (parseEntryNode env x); [discriminate|now apply IH].
Qed.

Lemma single_error d err :
  snd (parseEntryNodes_of env [d]) = Some err ->
  d <> "" /\ parseEntryNode env d = inl err.
Proof.
  rewrite parseEntryNodes_of_single.
  destruct (String.eqb d "") eqn:E; [discriminate|].
  apply String.eqb_neq in E.
  destruct (parseEntryNode env d); simpl; [|discriminate].
  intros [= ->]. now split.
Qed.

Lemma single_ok d :
  snd (parseEntryNodes_of env [d]) = None ->
  d = "" \/ exists p, parseEntryNode env d = inr p.
Proof.
  rewrite parseEntryNodes_of_single.
  destruct (String.eqb d "") eqn:E; [apply String.eqb_eq in E; now left|].
  destruct (parseEntryNode env d) as [?|p]; simpl; [discriminate|].
  intros _. right. now exists p.
Qed.

Lemma parseEntryNodes_loop_all_ok l acc :
  Forall (fun x => snd (parseEntryNodes_of env [x]) = None) l ->
  exists ps, parseEntryNodes_loop env l acc = (ps, None).
Proof.
  intros H. revert acc. induction H as [|x l Hx _ IH]; intros acc.
  - now exists acc.
  - rewrite parseEntryNodes_loop_cons.
    destruct (single_ok _ Hx) as [->|[p Hp]]; [apply IH|].
    destruct (String.eqb x ""); [apply IH|]. rewrite Hp. apply IH.
Qed.

End ParserFacts.

(** ** base64 *)

(** Every error of the decoder is a [CorruptInputError]. *)
Lemma Decode_error src : forall si total dbuf out bytes err,
  Decode src si total dbuf out = (bytes, Some err) ->
  exists n, err = CorruptInputError n.
Proof.
  induction src as [|c rest IH]; intros si total dbuf out bytes err; simpl.
  - destruct dbuf; intros [= _ <-]; eauto.
  - destruct (decodeMap c) as [v|].
    + destruct (length (dbuf ++ [v]) =? 4)%nat; apply IH.
    + destruct (isNewline c); [apply IH|].
      destruct (negb (Ascii.eqb c padChar)); [intros [= _ <-]; eauto|].
      destruct (length dbuf) as [|[|[|k]]]; try (intros [= _ <-]; eauto; fail).
      * destruct (skipNewlines rest (si + 1)) as [rest1 si1].
        destruct rest1 as [|c2 rest2]; [intros [= _ <-]; eauto|].
        destruct (negb (Ascii.eqb c2 padChar)); [intros [= _ <-]; eauto|].
        destruct (skipNewlines rest2 (si1 + 1)) as [rest3 si3].
        destruct rest3; intros H; inversion H; eauto.
      * destruct (skipNewlines rest (si + 1)) as [rest3 si3].
        destruct rest3; intros H; inversion H; eauto.
Qed.

Lemma DecodeString_error s bytes err :
  DecodeString s = (bytes, Some err) -> exists n, err = CorruptInputError n.
Proof. apply Decode_error. Qed.

(** ** The entry-node parser: the peers it builds, the errors it returns *)

Section ParserResults.
Variable env : Env.
Implicit Types (d : string) (l defs : list string) (acc ps : list Peer).

Lemma wellFormed_nonempty d : wellFormed env d -> d <> "".
Proof.
  intros (key & addr & pubKey & entryAddr & ips & Hs & _) ->. discriminate Hs.
Qed.

Lemma parseEntryNode_wellFormed d :
  wellFormed env d ->
  exists p, parseEntryNode env d = inr p /\ parsedFrom env d p.
Proof.
  intros (key & addr & pubKey & entryAddr & ips & Hs & Hk & Ha & Hi).
  unfold parseEntryNode. rewrite Hs. simpl. rewrite Hk, Ha, Hi.
  eexists. split; [reflexivity|].
  exists key, addr, entryAddr, ips.
  exists {| Network := "udp";
            String_ :=
              ToString env
                (GetPreferredAddress env ips
                   (GetBool env "network.prefer_ipv6"))
              +:+ ":" +:+ itoa (Port entryAddr) |}.
  repeat apply conj; try assumption.
  - apply lookup_insert_eq.
  - intros key' Hne. unfold Get, NewPeer, Update, service_New. simpl.
    rewrite lookup_insert_ne by congruence. apply lookup_empty.
  - reflexivity.
  - reflexivity.
  - apply portOf_joined.
Qed.

Lemma parseEntryNode_bad_shape d :
  length (strings_Split d "@") <> 2%nat ->
  parseEntryNode env d =
  inl (wrapError
         ("can't parse entry node: entry node parts must be 2, is "
          +:+ itoa (N.of_nat (length (strings_Split d "@"))))
         ErrParsingEntryNode).
Proof.
  intros H. unfold parseEntryNode.
  apply Nat.eqb_neq in H. now rewrite H.
Qed.

Lemma parseEntryNode_bad_key d key addr bytes derr :
  strings_Split d "@" = [key; addr] ->
  DecodeString key = (bytes, Some derr) ->
  parseEntryNode env d =
  inl (wrapError
         ("can't parse entry node: can't decode public key: " +:+ Error derr)
         ErrParsingEntryNode).
Proof.
  intros Hs Hk. unfold parseEntryNode. rewrite Hs. simpl. now rewrite Hk.
Qed.

Lemma parseEntryNodes_of_first_error d rest err :
  d <> "" ->
  parseEntryNode env d = inl err ->
  parseEntryNodes_of env (d :: rest) = ([], Some err).
Proof.
  intros Hd He. unfold parseEntryNodes_of.
  rewrite parseEntryNodes_loop_cons.
  apply String.eqb_neq in Hd. now rewrite Hd, He.
Qed.

End ParserResults.

(** C7: when every descriptor before [d] is empty or parses, and [d] fails
    with [err], the call returns [err] and no peers, whatever follows [d];
    and a list that holds a failing descriptor anywhere never parses. *)
Theorem parseEntryNodes_fail_fast (env : Env) (pre rest : list string)
    (d : string) (err : error) :
  Forall (fun x => snd (parseEntryNodes_of env [x]) = None) pre ->
  snd (parseEntryNodes_of env [d]) = Some err ->
  parseEntryNodes_of env (pre ++ d :: rest) = ([], Some err) /\
  (forall l, In d l -> snd (parseEntryNodes_of env l) <> None).
Proof.
  intros Hpre Hd. apply single_error in Hd as [Hne Herr]. split.
  - unfold parseEntryNodes_of. rewrite parseEntryNodes_loop_app.
    destruct (parseEntryNodes_loop_all_ok env pre [] Hpre) as [ps ->].
    rewrite parseEntryNodes_loop_cons, Herr.
    apply String.eqb_neq in Hne. now rewrite Hne.
  - intros l Hin. now apply (parseEntryNodes_loop_In_error env d err).
Qed.

(** A good descriptor and an empty one, then one without an at sign, then
    more bad ones that are never looked at. *)
Lemma parseEntryNodes_fail_fast_witness :
  parseEntryNodes_of Sample.quiet
    (["AQID@10.0.0.1:14626"; ""] ++ "abc" :: ["!@x"; "AQID@10.0.0.2:1"])
  = ([], Some (wrapError
                 "can't parse entry node: entry node parts must be 2, is 1"
                 ErrParsingEntryNode)) /\
  (forall l, In "abc" l -> snd (parseEntryNodes_of Sample.quiet l) <> None).
Proof.
  apply (parseEntryNodes_fail_fast Sample.quiet
           ["AQID@10.0.0.1:14626"; ""] ["!@x"; "AQID@10.0.0.2:1"] "abc").
  - repeat constructor.
  - vm_compute. reflexivity.
Defined.

(** C10: empty descriptors are skipped: dropping all of them, or adding one
    anywhere, changes neither the peers nor the error of the call, and a
    list of empty descriptors parses to no peers and no error. *)
Theorem parseEntryNodes_skips_empty (env : Env) :
  (forall l,
     parseEntryNodes_of env (filter (fun d => d <> "") l)
     = parseEntryNodes_of env l) /\
  (forall l1 l2,
     parseEntryNodes_of env (l1 ++ "" :: l2)
     = parseEntryNodes_of env (l1 ++ l2)) /\
  (forall n, parseEntryNodes_of env (replicate n "") = ([], None)).
Proof.
  unfold parseEntryNodes_of. repeat apply conj.
  - intros l. apply parseEntryNodes_loop_filter.
  - intros l1 l2. rewrite !parseEntryNodes_loop_app.
    destruct (parseEntryNodes_loop env l1 []) as [ps [err|]]; [reflexivity|].
    apply parseEntryNodes_loop_skip_empty.
  - induction n as [|n IH]; [reflexivity|].
    simpl replicate. now rewrite parseEntryNodes_loop_skip_empty.
Qed.

(** The spec's error names against the code: the descriptor that is empty
    does not split into two parts and is no error; the error for a bad
    shape and the error for a bad key wrap one and the same sentinel; and
    the decode error is not on the chain of the error for a bad key. *)
Lemma parseEntryNodes_errors_share_sentinel :
  (length (strings_Split "" "@") <> 2%nat /\
   parseEntryNodes_of Sample.quiet [""] = ([], None)) /\
  (parseEntryNodes_of Sample.quiet ["abc"]
   = ([], Some (wrapError
                  "can't parse entry node: entry node parts must be 2, is 1"
                  ErrParsingEntryNode)) /\
   DecodeString "!" = ([], Some (CorruptInputError 0)) /\
   parseEntryNodes_of Sample.quiet ["!@10.0.0.1:14626"]
   = ([], Some (wrapError
                  "can't parse entry node: can't decode public key: illegal base64 data at input byte 0"
                  ErrParsingEntryNode))) /\
  Unwrap (wrapError
            "can't parse entry node: entry node parts must be 2, is 1"
            ErrParsingEntryNode)
  = Unwrap (wrapError
              "can't parse entry node: can't decode public key: illegal base64 data at input byte 0"
              ErrParsingEntryNode) /\
  errors_Is
    (wrapError
       "can't parse entry node: can't decode public key: illegal base64 data at input byte 0"
       ErrParsingEntryNode)
    (CorruptInputError 0) = false.
Proof. repeat apply conj; vm_compute; congruence. Qed.

(** C4, as the code has it: a descriptor that is not empty and does not
    split into exactly two parts at the at sign fails with an error that
    wraps [ErrParsingEntryNode] and reports the number of parts; a
    descriptor of two parts whose first part is not valid base64 fails with
    another error that wraps the same [ErrParsingEntryNode], whose text
    ends in the text of the decode error, and which does not wrap the
    decode error. *)
Theorem parseEntryNodes_shape_and_key_errors (env : Env) (d : string)
    (rest : list string) :
  d <> "" ->
  (length (strings_Split d "@") <> 2%nat ->
   parseEntryNodes_of env (d :: rest)
   = ([], Some (wrapError
                  ("can't parse entry node: entry node parts must be 2, is "
                   +:+ itoa (N.of_nat (length (strings_Split d "@"))))
                  ErrParsingEntryNode))) /\
  (forall key addr bytes derr,
     strings_Split d "@" = [key; addr] ->
     DecodeString key = (bytes, Some derr) ->
     exists e,
       parseEntryNodes_of env (d :: rest) = ([], Some e) /\
       Error e = "can't parse entry node: can't decode public key: "
                 +:+ Error derr /\
       Unwrap e = Some ErrParsingEntryNode /\
       errors_Is e ErrParsingEntryNode = true /\
       errors_Is e derr = false /\
       forall n,
         e <> wrapError
                ("can't parse entry node: entry node parts must be 2, is "
                 +:+ itoa n)
                ErrParsingEntryNode).
Proof.
  intros Hd. split.
  - intros Hlen. apply parseEntryNodes_of_first_error; [assumption|].
    now apply parseEntryNode_bad_shape.
  - intros key addr bytes derr Hs Hk.
    eexists. split.
    { apply parseEntryNodes_of_first_error; [assumption|].
      eapply parseEntryNode_bad_key; eassumption. }
    destruct (DecodeString_error _ _ _ Hk) as [n ->].
    repeat apply conj; try reflexivity.
    intros m. discriminate.
Qed.

(** A descriptor without an at sign, and one whose key is not base64. *)
Lemma parseEntryNodes_shape_and_key_errors_witness :
  parseEntryNodes_of Sample.quiet ["abc"; "AQID@10.0.0.1:14626"]
  = ([], Some (wrapError
                 "can't parse entry node: entry node parts must be 2, is 1"
                 ErrParsingEntryNode)) /\
  exists e,
    parseEntryNodes_of Sample.quiet ["!@10.0.0.1:14626"] = ([], Some e) /\
    Error e = "can't parse entry node: can't decode public key: "
              +:+ Error (CorruptInputError 0) /\
    Unwrap e = Some ErrParsingEntryNode /\
    errors_Is e ErrParsingEntryNode = true /\
    errors_Is e (CorruptInputError 0) = false /\
    forall n,
      e <> wrapError
             ("can't parse entry node: entry node parts must be 2, is "
              +:+ itoa n)
             ErrParsingEntryNode.
Proof.
  split.
  - apply (parseEntryNodes_shape_and_key_errors Sample.quiet "abc"
             ["AQID@10.0.0.1:14626"]); [discriminate|].
    vm_compute. discriminate.
  - apply (proj2 (parseEntryNodes_shape_and_key_errors Sample.quiet
                    "!@10.0.0.1:14626" [] ltac:(discriminate))
             "!" "10.0.0.1:14626" []); reflexivity.
Defined.

(** ** The configuration step *)

Lemma configureAP_runs (env : Env) (w : world) :
  configureAP env w =
  (Done tt,
   {| Discovery :=
        Some {| disc_local := local_GetInstance env;
                disc_MasterPeers := fst (parseEntryNodes env) |};
      Selection :=
        Some {| sel_local := local_GetInstance env;
                sel_disc :=
                  Some {| disc_local := local_GetInstance env;
                          disc_MasterPeers := fst (parseEntryNodes env) |};
                sel_NeighborValidator := isValidNeighbor |};
      ID := ID w;
      trace :=
        trace w ++
        match snd (parseEntryNodes env) with
        | Some err =>
            [Log Error_ "Invalid entry nodes; ignoring: %v" [AError err]]
        | None => []
        end ++
        [Log Debug "Entry node peers: %v"
           [APeers (fst (parseEntryNodes env))]];
      defers := defers w |}).
Proof.
  unfold configureAP.
  destruct (parseEntryNodes env) as [ps [err|]]; cbn.
  - now rewrite <- app_assoc.
  - reflexivity.
Qed.

(** ** Deferred calls *)

Section Defers.
Variable env : Env.

Lemma run_deferred_effect (d : deferred) (w : world) :
  exists o,
    run_deferred env d w =
    (o, {| Discovery := Discovery w; Selection := Selection w; ID := ID w;
           trace := trace w ++ [event_of d]; defers := defers w |}) /\
    match o with
    | Done _ => match d with
                | DeferClose r => forall v, Close env r <> ClosePanic v
                | DeferLogInfo _ => True
                end
    | Panicking v => exists r, d = DeferClose r /\ Close env r = ClosePanic v
    | _ => False
    end.
Proof.
  destruct d as [msg|r]; cbn.
  - eexists. split; [reflexivity|exact I].
  - destruct (Close env r) as [|e|v] eqn:E; cbn;
      eexists; (split; [reflexivity|]); try discriminate.
    now exists r.
Qed.

(** Every deferred call runs, in stack order, whatever the ones before it
    did; nothing else changes. *)
Lemma run_defers_effect (ds : list deferred) : forall (st : outcome unit) w,
  exists o,
    run_defers env ds st w =
    (o, {| Discovery := Discovery w; Selection := Selection w; ID := ID w;
           trace := trace w ++ map event_of ds; defers := defers w |}) /\
    (fatal st -> fatal o) /\
    ((forall r v, Close env r <> ClosePanic v) -> o = st) /\
    (o = st \/ exists v, o = Panicking v).
Proof.
  induction ds as [|d ds IH]; intros st w.
  - exists st. simpl. rewrite app_nil_r. destruct w. repeat split; auto.
  - simpl run_defers.
    destruct (run_deferred_effect d w) as (o1 & -> & Ho1).
    destruct o1 as [[]|v| |]; try contradiction.
    + destruct (IH st {| Discovery := Discovery w; Selection := Selection w;
                         ID := ID w; trace := trace w ++ [event_of d];
                         defers := defers w |}) as (o & -> & Hf & Hq & Hor).
      exists o. simpl. rewrite <- app_assoc. repeat split; auto.
    + destruct (IH (Panicking v)
                  {| Discovery := Discovery w; Selection := Selection w;
                     ID := ID w; trace := trace w ++ [event_of d];
                     defers := defers w |}) as (o & -> & Hf & Hq & Hor).
      exists o. simpl. rewrite <- app_assoc. repeat split; auto.
      * intros _. now apply Hf.
      * intros Hno. destruct Ho1 as (r & _ & Hr). now destruct (Hno r v).
      * right. destruct Hor as [->|[v' ->]]; eauto.
Qed.

End Defers.

(** ** The supervisor *)

Section Supervisor.
Variable env : Env.

(** A startup in which every step succeeds runs up to the wait for the
    shutdown signal, with the closes stacked in reverse order. *)
Lemma start_body_startup (w : world) d a host port la ra :
  Discovery w = Some d ->
  startupSucceeds env a host port la ra ->
  start_body env (set_defers [] w) =
  ((if shutdownSignal env then Done tt else Blocked),
   {| Discovery := Some d;
      Selection := Selection w;
      ID := local_ID_String env;
      trace :=
        trace w ++ startupTrace env a (bool_decide (is_Some (Selection w))) ++
        (if shutdownSignal env
         then [Log Info "Stopping Autopeering ..." []] else []);
      defers :=
        (if bool_decide (is_Some (Selection w))
         then [DeferClose SelectionH] else []) ++
        [DeferClose DiscoveryH; DeferClose srv; DeferClose trans;
         DeferClose conn; DeferLogInfo "Stopping Autopeering ... done"] |}).
Proof.
  intros HD (Hp & Hs & Hl & Hr & Hc & Hb).
  destruct w as [D S I t ds]. simpl in HD. subst D.
  exec. rewrite Hp. exec. rewrite Hs. exec. rewrite Hl. exec. rewrite Hr.
  exec. rewrite Hc. exec. rewrite Hb. exec.
  destruct S as [s|], (shutdownSignal env); exec;
    rewrite <- ?app_assoc; reflexivity.
Qed.

End Supervisor.

Section SupervisorFailures.
Variable env : Env.

Lemma start_selftest_failure (w : world) a host port la ra err :
  Get (Services (local_GetInstance env)) PeeringKey = Some a ->
  SplitHostPort (String_ a) = inr (host, port) ->
  ResolveUDPAddr env (Network a)
    (JoinHostPort (GetString env (CFG_BIND env)) port) = inr la ->
  ResolveUDPAddr env (Network a) (String_ a) = inr ra ->
  CheckUDP env la ra false true = Some err ->
  start env w =
  (Panicking
     (PanicLog "Please check that HORNET is publicly reachable at %s/%s"
        [AString (String_ a); AString (Network a)]),
   {| Discovery := Discovery w; Selection := Selection w; ID := ID w;
      trace :=
        trace w ++
        [Log Info "Testing service ..." [];
         CallCheckUDP;
         Log Error_ "Error testing service: %s" [AError err];
         Log PanicLevel
           "Please check that HORNET is publicly reachable at %s/%s"
           [AString (String_ a); AString (Network a)];
         Log Info "Stopping Autopeering ... done" []];
      defers := [] |}).
Proof.
  intros Hp Hs Hl Hr Hc. destruct w as [D S I t ds].
  exec. rewrite Hp. exec. rewrite Hs. exec. rewrite Hl. exec. rewrite Hr.
  exec. rewrite Hc. exec. now rewrite <- !app_assoc.
Qed.

Lemma start_bind_failure (w : world) a host port la ra err :
  Get (Services (local_GetInstance env)) PeeringKey = Some a ->
  SplitHostPort (String_ a) = inr (host, port) ->
  ResolveUDPAddr env (Network a)
    (JoinHostPort (GetString env (CFG_BIND env)) port) = inr la ->
  ResolveUDPAddr env (Network a) (String_ a) = inr ra ->
  CheckUDP env la ra false true = None ->
  ListenUDP env (Network a) la = Some err ->
  start env w =
  (Exit 1,
   {| Discovery := Discovery w; Selection := Selection w; ID := ID w;
      trace :=
        trace w ++
        [Log Info "Testing service ..." [];
         CallCheckUDP;
         Log Info "Testing service ... done" [];
         CallListenUDP;
         Log Fatal "Error listening: %v" [AError err]];
      defers := [DeferLogInfo "Stopping Autopeering ... done"] |}).
Proof.
  intros Hp Hs Hl Hr Hc Hb. destruct w as [D S I t ds].
  exec. rewrite Hp. exec. rewrite Hs. exec. rewrite Hl. exec. rewrite Hr.
  exec. rewrite Hc. exec. rewrite Hb. exec. now rewrite <- !app_assoc.
Qed.

(** Whatever step of the startup fails, [start] ends in a panic or in
    [os.Exit], and by then it has neither served nor started a protocol nor
    set [ID]. *)
Lemma start_failure_fatal (w : world) :
  ~ (exists a host port la ra, startupSucceeds env a host port la ra) ->
  exists evs,
    fatal (fst (start env w)) /\
    trace (snd (start env w)) = trace w ++ evs /\
    Forall (fun e => ~ servingEvent e) evs /\
    ID (snd (start env w)) = ID w.
Proof.
  intros Hno. destruct w as [D S I t ds]. exec.
  destruct (Get (Services (local_GetInstance env)) PeeringKey)
    as [a|] eqn:Hp; exec; [|failed_startup].
  destruct (SplitHostPort (String_ a)) as [err|[host port]] eqn:Hs; exec;
    [failed_startup|].
  destruct (ResolveUDPAddr env (Network a)
              (JoinHostPort (GetString env (CFG_BIND env)) port))
    as [err|la] eqn:Hl; exec; [failed_startup|].
  destruct (ResolveUDPAddr env (Network a) (String_ a))
    as [err|ra] eqn:Hr; exec; [failed_startup|].
  destruct (CheckUDP env la ra false true) as [err|] eqn:Hc; exec;
    [failed_startup|].
  destruct (ListenUDP env (Network a) la) as [err|] eqn:Hb; exec;
    [failed_startup|].
  destruct Hno. exists a, host, port, la, ra. now repeat split.
Qed.

(** With the startup done and the signal delivered, the deferred calls
    run: the trace ends in the teardown, in reverse order of acquisition,
    whatever each [Close] does. *)
Lemma start_shutdown (w : world) d a host port la ra :
  Discovery w = Some d ->
  startupSucceeds env a host port la ra ->
  shutdownSignal env = true ->
  trace (snd (start env w)) =
    trace w ++ startupTrace env a (bool_decide (is_Some (Selection w))) ++
    [Log Info "Stopping Autopeering ..." []] ++
    teardownTrace (bool_decide (is_Some (Selection w))) ++
    [Log Info "Stopping Autopeering ... done" []] /\
  (fst (start env w) = Done tt \/ exists v, fst (start env w) = Panicking v) /\
  ((forall r v, Close env r <> ClosePanic v) -> fst (start env w) = Done tt).
Proof.
  intros HD Hok Hsig. unfold start, with_defers.
  rewrite (start_body_startup env w d a host port la ra HD Hok), Hsig.
  cbv beta iota.
  match goal with
  | |- context [run_defers env ?ds ?st ?w0] =>
      destruct (run_defers_effect env ds st w0) as (o & -> & _ & Hq & Hor)
  end.
  cbn [fst snd trace defers set_defers]. repeat apply conj.
  - rewrite <- !app_assoc. do 3 f_equal.
    destruct (bool_decide (is_Some (Selection w))); reflexivity.
  - exact Hor.
  - exact Hq.
Qed.

(** Without the signal [start] stays blocked and closes nothing. *)
Lemma start_waits (w : world) d a host port la ra :
  Discovery w = Some d ->
  startupSucceeds env a host port la ra ->
  shutdownSignal env = false ->
  fst (start env w) = Blocked /\
  trace (snd (start env w)) =
    trace w ++ startupTrace env a (bool_decide (is_Some (Selection w))).
Proof.
  intros HD Hok Hsig. unfold start, with_defers.
  rewrite (start_body_startup env w d a host port la ra HD Hok), Hsig.
  cbn. now rewrite app_nil_r.
Qed.

End SupervisorFailures.

(** [start] starts discovery, and starts selection exactly when the package
    variable [Selection] is set. *)
Lemma start_selection_iff_set (env : Env) (w : world) d a host port la ra :
  Discovery w = Some d ->
  startupSucceeds env a host port la ra ->
  exists evs,
    trace (snd (start env w)) = trace w ++ evs /\
    In (CallStart DiscoveryH) evs /\
    (In (CallStart SelectionH) evs <-> is_Some (Selection w)).
Proof.
  intros HD Hok.
  assert (Hstart : forall sel,
            In (CallStart DiscoveryH) (startupTrace env a sel) /\
            (In (CallStart SelectionH) (startupTrace env a sel)
             <-> sel = true)).
  { intros sel. split.
    - destruct sel; cbn; repeat (first [left; reflexivity | right]).
    - destruct sel; cbn; split; intros H; try reflexivity; try discriminate H.
      + repeat (first [left; reflexivity | right]).
      + repeat (destruct H as [H|H]; [discriminate H|]). destruct H. }
  assert (Htear : forall sel tl,
            (forall e, In e tl -> exists m, e = Log Info m []) ->
            ~ In (CallStart SelectionH) (teardownTrace sel ++ tl)).
  { intros sel tl Htl H. apply in_app_or in H as [H|H].
    - destruct sel; cbn in H;
        repeat (destruct H as [H|H]; [discriminate H|]); destruct H.
    - apply Htl in H as [m H]. discriminate H. }
  destruct (shutdownSignal env) eqn:Hsig.
  - destruct (start_shutdown env w d a host port la ra HD Hok Hsig)
      as (-> & _).
    eexists. split; [reflexivity|]. split.
    + apply in_or_app. left. apply Hstart.
    + split.
      * intros H. eapply bool_decide_eq_true_1, Hstart.
        apply in_app_or in H as [H|H]; [exact H|]. exfalso.
        destruct H as [H|H]; [discriminate H|].
        apply Htear in H; [destruct H|].
        intros e [<-|[]]. eauto.
      * intros H. apply in_or_app. left.
        now apply Hstart, bool_decide_eq_true_2.
  - destruct (start_waits env w d a host port la ra HD Hok Hsig)
      as (_ & ->).
    eexists. split; [reflexivity|]. split; [apply Hstart|].
    rewrite (proj2 (Hstart _)).
    split; [apply bool_decide_eq_true_1|apply bool_decide_eq_true_2].
Qed.

(** C3: a failed self-test makes [start] panic, after one call of
    [CheckUDP], with a message that names the advertised peering address
    and its network; a failed bind makes [start] exit the process right
    after [ListenUDP]; and whichever step of the startup fails, [start] ends
    in a panic or an exit without having served, started a protocol or set
    [ID]. *)
Theorem startup_failure_is_fatal (env : Env) (w : world) :
  (forall a host port la ra err,
     Get (Services (local_GetInstance env)) PeeringKey = Some a ->
     SplitHostPort (String_ a) = inr (host, port) ->
     ResolveUDPAddr env (Network a)
       (JoinHostPort (GetString env (CFG_BIND env)) port) = inr la ->
     ResolveUDPAddr env (Network a) (String_ a) = inr ra ->
     CheckUDP env la ra false true = Some err ->
     start env w =
     (Panicking
        (PanicLog "Please check that HORNET is publicly reachable at %s/%s"
           [AString (String_ a); AString (Network a)]),
      {| Discovery := Discovery w; Selection := Selection w; ID := ID w;
         trace :=
           trace w ++
           [Log Info "Testing service ..." [];
            CallCheckUDP;
            Log Error_ "Error testing service: %s" [AError err];
            Log PanicLevel
              "Please check that HORNET is publicly reachable at %s/%s"
              [AString (String_ a); AString (Network a)];
            Log Info "Stopping Autopeering ... done" []];
         defers := [] |})) /\
  (forall a host port la ra err,
     Get (Services (local_GetInstance env)) PeeringKey = Some a ->
     SplitHostPort (String_ a) = inr (host, port) ->
     ResolveUDPAddr env (Network a)
       (JoinHostPort (GetString env (CFG_BIND env)) port) = inr la ->
     ResolveUDPAddr env (Network a) (String_ a) = inr ra ->
     CheckUDP env la ra false true = None ->
     ListenUDP env (Network a) la = Some err ->
     start env w =
     (Exit 1,
      {| Discovery := Discovery w; Selection := Selection w; ID := ID w;
         trace :=
           trace w ++
           [Log Info "Testing service ..." [];
            CallCheckUDP;
            Log Info "Testing service ... done" [];
            CallListenUDP;
            Log Fatal "Error listening: %v" [AError err]];
         defers := [DeferLogInfo "Stopping Autopeering ... done"] |})) /\
  (~ (exists a host port la ra, startupSucceeds env a host port la ra) ->
   exists evs,
     fatal (fst (start env w)) /\
     trace (snd (start env w)) = trace w ++ evs /\
     Forall (fun e => ~ servingEvent e) evs /\
     ID (snd (start env w)) = ID w).
Proof.
  repeat apply conj.
  - apply start_selftest_failure.
  - apply start_bind_failure.
  - apply start_failure_fatal.
Qed.

(** The self-test of the example host times out. *)
Lemma startup_failure_is_fatal_witness :
  fst (start (Sample.host [] (Some (errorString "timeout")) None
                (fun _ => CloseOk) true) initial)
  = Panicking
      (PanicLog "Please check that HORNET is publicly reachable at %s/%s"
         [AString "192.0.2.7:14626"; AString "udp"]).
Proof.
  rewrite (proj1 (startup_failure_is_fatal
                    (Sample.host [] (Some (errorString "timeout")) None
                       (fun _ => CloseOk) true) initial)
             {| Network := "udp"; String_ := "192.0.2.7:14626" |}
             "192.0.2.7" "14626" "0.0.0.0:14626" "192.0.2.7:14626"
             (errorString "timeout"));
    vm_compute; reflexivity.
Defined.

(** C8: once the startup has succeeded and the shutdown signal arrives,
    [start] logs that it stops and then closes what it acquired in reverse
    order of acquisition: the selection protocol if it was started, the
    discovery protocol, the server, the transport, the socket.  This holds
    for every behaviour of the [Close] calls: one that returns an error or
    panics does not keep the later ones from running.  [start] then returns,
    or goes on panicking when a [Close] panicked. *)
Theorem shutdown_closes_in_reverse_order (env : Env) (w : world)
    (d : discover_Protocol) (a : networkAddress) (host port : string)
    (la ra : UDPAddr env) :
  Discovery w = Some d ->
  startupSucceeds env a host port la ra ->
  shutdownSignal env = true ->
  trace (snd (start env w)) =
    trace w ++ startupTrace env a (bool_decide (is_Some (Selection w))) ++
    [Log Info "Stopping Autopeering ..." []] ++
    teardownTrace (bool_decide (is_Some (Selection w))) ++
    [Log Info "Stopping Autopeering ... done" []] /\
  (fst (start env w) = Done tt \/ exists v, fst (start env w) = Panicking v) /\
  ((forall r v, Close env r <> ClosePanic v) -> fst (start env w) = Done tt).
Proof. apply start_shutdown. Qed.

(** ** The configuration step, continued *)

(** C9: when the entry nodes do not parse, [configureAP] logs the error and
    goes on: it returns normally, and [Discovery] is built with no master
    peers. *)
Theorem configureAP_ignores_parse_error (env : Env) (w : world)
    (ps : list Peer) (err : error) :
  parseEntryNodes env = (ps, Some err) ->
  exists w',
    configureAP env w = (Done tt, w') /\
    trace w' =
      trace w ++
      [Log Error_ "Invalid entry nodes; ignoring: %v" [AError err];
       Log Debug "Entry node peers: %v" [APeers []]] /\
    Discovery w' =
      Some {| disc_local := local_GetInstance env; disc_MasterPeers := [] |}.
Proof.
  intros H. rewrite configureAP_runs. eexists. split; [reflexivity|].
  assert (ps = []) as ->.
  { unfold parseEntryNodes, parseEntryNodes_of in H.
    now apply parseEntryNodes_loop_error in H. }
  rewrite H. split; reflexivity.
Qed.

(** One of two configured entry nodes has no at sign. *)
Lemma configureAP_ignores_parse_error_witness :
  exists w',
    configureAP (Sample.host ["AQID@10.0.0.1:14626"; "abc"] None None
                   (fun _ => CloseOk) true) initial = (Done tt, w') /\
    trace w' =
      [] ++
      [Log Error_ "Invalid entry nodes; ignoring: %v"
         [AError (wrapError
                    "can't parse entry node: entry node parts must be 2, is 1"
                    ErrParsingEntryNode)];
       Log Debug "Entry node peers: %v" [APeers []]] /\
    Discovery w' =
      Some {| disc_local := Sample.localPeer; disc_MasterPeers := [] |}.
Proof.
  apply (configureAP_ignores_parse_error
           (Sample.host ["AQID@10.0.0.1:14626"; "abc"] None None
              (fun _ => CloseOk) true) initial []).
  vm_compute. reflexivity.
Defined.

(** C5, what the code does: [configureAP] sets [Selection] whatever the
    configuration says, so a startup that succeeds after it starts both
    discovery and selection. *)
Theorem configureAP_always_enables_selection (env : Env) (w : world) :
  exists w',
    configureAP env w = (Done tt, w') /\
    is_Some (Discovery w') /\
    is_Some (Selection w') /\
    forall a host port la ra,
      startupSucceeds env a host port la ra ->
      exists evs,
        trace (snd (start env w')) = trace w' ++ evs /\
        In (CallStart DiscoveryH) evs /\
        In (CallStart SelectionH) evs.
Proof.
  rewrite configureAP_runs. eexists. split; [reflexivity|].
  split; [eexists; reflexivity|]. split; [eexists; reflexivity|].
  intros a host port la ra Hok.
  match goal with
  | |- context [start env ?w1] =>
      destruct (start_selection_iff_set env w1 _ a host port la ra
                  eq_refl Hok) as (evs & Htr & HD & HS)
  end.
  exists evs. split; [exact Htr|]. split; [exact HD|].
  apply HS. eexists. reflexivity.
Qed.

(** Every close goes wrong, and every close still runs. *)
Lemma shutdown_closes_in_reverse_order_witness :
  trace (snd (start Sample.closing (Sample.configured Sample.closing))) =
    trace (Sample.configured Sample.closing) ++
    startupTrace Sample.closing
      {| Network := "udp"; String_ := "192.0.2.7:14626" |}
      (bool_decide
         (is_Some (Selection (Sample.configured Sample.closing)))) ++
    [Log Info "Stopping Autopeering ..." []] ++
    teardownTrace
      (bool_decide
         (is_Some (Selection (Sample.configured Sample.closing)))) ++
    [Log Info "Stopping Autopeering ... done" []] /\
  (fst (start Sample.closing (Sample.configured Sample.closing)) = Done tt \/
   exists v,
     fst (start Sample.closing (Sample.configured Sample.closing))
     = Panicking v) /\
  ((forall r v, Close Sample.closing r <> ClosePanic v) ->
   fst (start Sample.closing (Sample.configured Sample.closing)) = Done tt).
Proof.
  apply (shutdown_closes_in_reverse_order Sample.closing
           (Sample.configured Sample.closing)
           {| disc_local := Sample.localPeer; disc_MasterPeers := [] |}
           {| Network := "udp"; String_ := "192.0.2.7:14626" |}
           "192.0.2.7" "14626" "0.0.0.0:14626" "192.0.2.7:14626").
  - reflexivity.
  - repeat apply conj; vm_compute; reflexivity.
  - reflexivity.
Defined.

(** The teardown of the example, event by event. *)
Example shutdown_example :
  start Sample.closing (Sample.configured Sample.closing) =
  (Panicking (PanicError (errorString "close of closed channel")),
   {| Discovery := Discovery (Sample.configured Sample.closing);
      Selection := Selection (Sample.configured Sample.closing);
      ID := "2bWh1MSEXZE8";
      trace :=
        [Log Debug "Entry node peers: %v" [APeers []];
         Log Info "Testing service ..." [];
         CallCheckUDP;
         Log Info "Testing service ... done" [];
         CallListenUDP;
         CallTransportConn;
         CallServe [HDiscovery; HSelection];
         CallStart DiscoveryH;
         CallStart SelectionH;
         Log Info "Autopeering started: Address=%s/%s"
           [AString "192.0.2.7:14626"; AString "udp"];
         Log Info "Autopeering started: ID=%s PublicKey=%s"
           [AString "2bWh1MSEXZE8"; AString "AQID"];
         Log Info "Stopping Autopeering ..." [];
         CallClose SelectionH;
         CallClose DiscoveryH;
         CallClose srv;
         CallClose trans;
         CallClose conn;
         Log Info "Stopping Autopeering ... done" []];
      defers := [] |}).
Proof. vm_compute. reflexivity. Qed.

(** The bind of the example host fails: the process exits at once, and no
    deferred call runs. *)
Example bind_failure_example :
  let env := Sample.host [] None (Some (errorString "address already in use"))
               (fun _ => CloseOk) true in
  start env (Sample.configured env) =
  (Exit 1,
   {| Discovery := Discovery (Sample.configured env);
      Selection := Selection (Sample.configured env);
      ID := "";
      trace :=
        [Log Debug "Entry node peers: %v" [APeers []];
         Log Info "Testing service ..." [];
         CallCheckUDP;
         Log Info "Testing service ... done" [];
         CallListenUDP;
         Log Fatal "Error listening: %v"
           [AError (errorString "address already in use")]];
      defers := [DeferLogInfo "Stopping Autopeering ... done"] |}).
Proof. vm_compute. reflexivity. Qed.

(** The examples of the spec for the validator. *)
Example isValidNeighbor_examples :
  isValidNeighbor (Sample.candidate "10.0.0.1:15600" "10.0.0.2:14626")
    = Return false /\
  isValidNeighbor (Sample.candidate "10.0.0.1:15600" "10.0.0.1:14626")
    = Return true /\
  isValidNeighbor (Sample.candidate "10.0.0.1" "10.0.0.1:14626")
    = Return false /\
  isValidNeighbor (Sample.candidate "10.0.0.1:15600" "10.0.0.1")
    = Return false /\
  isValidNeighbor (NewPeer [] (Update service_New PeeringKey "udp"
                                 "10.0.0.1:14626"))
    = Return false.
Proof. repeat apply conj; vm_compute; reflexivity. Qed.

(** ** The library models on known inputs *)

Example SplitHostPort_examples :
  SplitHostPort "10.0.0.1:15600" = inr ("10.0.0.1", "15600") /\
  SplitHostPort "[::1]:80" = inr ("::1", "80") /\
  SplitHostPort ":" = inr ("", "") /\
  SplitHostPort "10.0.0.1"
    = inl (AddrError "missing port in address" "10.0.0.1") /\
  SplitHostPort "::1:80" = inl (AddrError "too many colons in address" "::1:80") /\
  SplitHostPort "[::1]" = inl (AddrError "missing port in address" "[::1]") /\
  SplitHostPort "[::1:80" = inl (AddrError "missing ']' in address" "[::1:80") /\
  SplitHostPort "a[b:80" = inl (AddrError "unexpected '[' in address" "a[b:80") /\
  SplitHostPort "a]b:80" = inl (AddrError "unexpected ']' in address" "a]b:80").
Proof. repeat apply conj; vm_compute; reflexivity. Qed.

Example strings_Split_examples :
  strings_Split "" "@" = [""] /\
  strings_Split "abc" "@" = ["abc"] /\
  strings_Split "key@host:1" "@" = ["key"; "host:1"] /\
  strings_Split "@" "@" = [""; ""] /\
  strings_Split "a@@b@" "@" = ["a"; ""; "b"; ""].
Proof. repeat apply conj; reflexivity. Qed.

Example DecodeString_examples :
  DecodeString "" = ([], None) /\
  DecodeString "AQID" = (["001"; "002"; "003"]%byte, None) /\
  DecodeString "AQI=" = (["001"; "002"]%byte, None) /\
  DecodeString "AQ==" = (["001"]%byte, None) /\
  DecodeString "!" = ([], Some (CorruptInputError 0)) /\
  DecodeString "AQIDBA" = (["001"; "002"; "003"]%byte,
                           Some (CorruptInputError 4)) /\
  DecodeString "AQ=" = ([], Some (CorruptInputError 3)) /\
  DecodeString "AQ==x" = (["001"]%byte, Some (CorruptInputError 4)) /\
  EncodeToString ["001"; "002"; "003"; "004"]%byte = "AQIDBA==".
Proof. repeat apply conj; vm_compute; reflexivity. Qed.

(** Each way a descriptor can fail, behind a good descriptor and in front
    of one that is never parsed. *)
Example parseEntryNodes_failure_kinds :
  parseEntryNodes_of Sample.quiet
    ["AQID@10.0.0.1:14626"; "a@b@c"; "AQID@10.0.0.2:14626"]
  = ([], Some (wrapError
                 "can't parse entry node: entry node parts must be 2, is 3"
                 ErrParsingEntryNode)) /\
  parseEntryNodes_of Sample.quiet
    ["AQID@10.0.0.1:14626"; "AQ=@10.0.0.3:14626"; "AQID@10.0.0.2:14626"]
  = ([], Some (wrapError
                 "can't parse entry node: can't decode public key: illegal base64 data at input byte 3"
                 ErrParsingEntryNode)) /\
  parseEntryNodes_of Sample.quiet
    ["AQID@10.0.0.1:14626"; "AQID@10.0.0.3"; "AQID@10.0.0.2:14626"]
  = ([], Some (wrapError
                 "address 10.0.0.3: missing port in address: invalid entry node address 10.0.0.3"
                 (AddrError "missing port in address" "10.0.0.3"))) /\
  parseEntryNodes_of Sample.quiet
    ["AQID@10.0.0.1:14626"; "AQID@unknown.invalid:1"; "AQID@10.0.0.2:14626"]
  = ([], Some (wrapError
                 "could not resolve host: while handling unknown.invalid:1"
                 (errorString "could not resolve host"))).
Proof. repeat apply conj; vm_compute; reflexivity. Qed.

(** After [configureAP] on the example host, with nothing said about
    gossip anywhere, [Selection] is set and [start] starts it. *)
Example selection_always_started :
  is_Some (Selection (Sample.configured Sample.quiet)) /\
  In (CallStart SelectionH)
     (trace (snd (start Sample.quiet (Sample.configured Sample.quiet)))).
Proof.
  split; [eexists; reflexivity|].
  vm_compute. repeat (first [left; reflexivity | right]).
Qed.

(** * Further properties *)

(** ** The parser, descriptor by descriptor *)

Section ParserMore.
Variable env : Env.
Implicit Types (d : string) (l : list string) (ps : list Peer).

Lemma length_two {A} (xs : list A) :
  length xs = 2%nat -> exists x y, xs = [x; y].
Proof. destruct xs as [|x [|y [|z xs]]]; try discriminate. eauto. Qed.

(** A turn of the loop that appends a peer saw a well-formed descriptor. *)
Lemma parseEntryNode_inr d p :
  parseEntryNode env d = inr p -> wellFormed env d /\ parsedFrom env d p.
Proof.
  intros H.
  assert (Hwf : wellFormed env d).
  { revert H. unfold parseEntryNode.
    destruct (length (strings_Split d "@") =? 2)%nat eqn:E; [|discriminate].
    apply Nat.eqb_eq, length_two in E as (key & addr & E). rewrite E. simpl.
    destruct (DecodeString key) as [pubKey [err|]] eqn:Hk; [discriminate|].
    destruct (ParseOriginAddress env addr) as [err|oa] eqn:Ha; [discriminate|].
    destruct (GetIPAddressesFromHost env (Addr oa)) as [err|ips] eqn:Hi;
      [discriminate|].
    intros _. now exists key, addr, pubKey, oa, ips. }
  split; [exact Hwf|].
  destruct (parseEntryNode_wellFormed env d Hwf) as (p' & Hp' & Hfrom).
  congruence.
Qed.

Lemma parseEntryNode_inl_not_wellFormed d err :
  parseEntryNode env d = inl err -> ~ wellFormed env d.
Proof.
  intros H Hwf.
  destruct (parseEntryNode_wellFormed env d Hwf) as (p & Hp & _). congruence.
Qed.

Lemma parseEntryNodes_loop_success l : forall acc ps,
  parseEntryNodes_loop env l acc = (ps, None) ->
  Forall (fun d => d = "" \/ wellFormed env d) l /\
  exists new, ps = acc ++ new /\
              Forall2 (parsedFrom env) (filter (fun d => d <> "") l) new.
Proof.
  induction l as [|d l IH]; intros acc ps.
  - intros [= <-]. split; [constructor|].
    exists []. rewrite app_nil_r. split; [reflexivity|constructor].
  - rewrite parseEntryNodes_loop_cons, filter_cons.
    destruct (String.eqb d "") eqn:E.
    + apply String.eqb_eq in E. subst d. intros H.
      apply IH in H as (Hall & new & -> & Hnew).
      split; [constructor; auto|].
      exists new. split; [reflexivity|].
      destruct (decide ("" <> "")) as [Hne|_]; [now destruct Hne|exact Hnew].
    + apply String.eqb_neq in E.
      destruct (parseEntryNode env d) as [err|p] eqn:Hp; [discriminate|].
      apply parseEntryNode_inr in Hp as [Hwf Hfrom]. intros H.
      apply IH in H as (Hall & new & -> & Hnew).
      split; [constructor; auto|].
      exists (p :: new). split; [now rewrite <- app_assoc|].
      destruct (decide (d <> "")) as [_|Hn]; [|now destruct Hn].
      now constructor.
Qed.

Lemma parseEntryNodes_loop_all_wellFormed l : forall acc,
  Forall (fun d => d = "" \/ wellFormed env d) l ->
  snd (parseEntryNodes_loop env l acc) = None.
Proof.
  induction l as [|d l IH]; intros acc Hall; [reflexivity|].
  inversion Hall as [|? ? Hd Hl]; subst.
  rewrite parseEntryNodes_loop_cons.
  destruct (String.eqb d "") eqn:E; [now apply IH|].
  apply String.eqb_neq in E. destruct Hd as [->|Hwf]; [now destruct E|].
  destruct (parseEntryNode_wellFormed env d Hwf) as (p & -> & _).
  now apply IH.
Qed.

Lemma errors_Is_refl (e : error) : errors_Is e e = true.
Proof. destruct e; simpl; now rewrite bool_decide_eq_true_2. Qed.

Lemma errors_Is_wrapped msg (e : error) : errors_Is (wrapError msg e) e = true.
Proof. simpl. rewrite errors_Is_refl. now destruct (bool_decide _). Qed.

(** What kind of error a turn of the loop returns. *)
Lemma parseEntryNode_inl d err :
  parseEntryNode env d = inl err ->
  exists msg inner,
    err = wrapError msg inner /\
    (inner = ErrParsingEntryNode \/
     (exists addr, ParseOriginAddress env addr = inl inner) \/
     (exists host, GetIPAddressesFromHost env host = inl inner)).
Proof.
  unfold parseEntryNode.
  destruct (negb _); [intros [= <-]; eauto|].
  destruct (DecodeString _) as [pubKey [derr|]]; [intros [= <-]; eauto|].
  destruct (ParseOriginAddress env _) as [aerr|oa] eqn:Ha;
    [intros [= <-]; eauto 7|].
  destruct (GetIPAddressesFromHost env _) as [rerr|ips] eqn:Hi;
    [intros [= <-]; eauto 7|discriminate].
Qed.

(** The error of a call is the error of the first descriptor that fails. *)
Lemma parseEntryNodes_loop_failure l : forall acc ps err,
  parseEntryNodes_loop env l acc = (ps, Some err) ->
  exists pre d rest,
    l = pre ++ d :: rest /\
    Forall (fun x => x = "" \/ wellFormed env x) pre /\
    d <> "" /\
    parseEntryNode env d = inl err.
Proof.
  induction l as [|d l IH]; intros acc ps err; [discriminate|].
  rewrite parseEntryNodes_loop_cons.
  destruct (String.eqb d "") eqn:E.
  - apply String.eqb_eq in E. subst d. intros H.
    apply IH in H as (pre & d & rest & -> & Hpre & Hd & He).
    exists ("" :: pre), d, rest. repeat split; auto.
  - apply String.eqb_neq in E.
    destruct (parseEntryNode env d) as [e|p] eqn:Hp.
    + intros [= _ <-]. exists [], d, l. repeat split; auto.
    + intros H. apply IH in H as (pre & d' & rest & -> & Hpre & Hd & He).
      apply parseEntryNode_inr in Hp as [Hwf _].
      exists (d :: pre), d', rest. repeat split; auto.
Qed.

End ParserMore.

(** X1: the call succeeds exactly when every descriptor is empty or
    well-formed, and then the peers are those of the descriptors that are not
    empty, one each and in order. *)
Theorem parseEntryNodes_succeeds_iff (env : Env) (l : list string) :
  (snd (parseEntryNodes_of env l) = None <->
   Forall (fun d => d = "" \/ wellFormed env d) l) /\
  (forall ps,
     parseEntryNodes_of env l = (ps, None) ->
     Forall2 (parsedFrom env) (filter (fun d => d <> "") l) ps).
Proof.
  unfold parseEntryNodes_of. split; [split|].
  - destruct (parseEntryNodes_loop env l []) as [ps [err|]] eqn:H;
      [discriminate|].
    intros _. now apply parseEntryNodes_loop_success in H.
  - apply parseEntryNodes_loop_all_wellFormed.
  - intros ps H.
    apply parseEntryNodes_loop_success in H as (_ & new & -> & Hnew).
    exact Hnew.
Qed.

(** X2: parsing a list in two pieces: if both pieces parse, the peers of
    the whole are those of the first piece followed by those of the second;
    otherwise the whole fails with the error of the first piece that
    fails. *)
Theorem parseEntryNodes_of_app (env : Env) (l1 l2 : list string) :
  parseEntryNodes_of env (l1 ++ l2) =
  match parseEntryNodes_of env l1 with
  | (ps1, None) =>
      match parseEntryNodes_of env l2 with
      | (ps2, None) => (ps1 ++ ps2, None)
      | (_, Some err) => ([], Some err)
      end
  | (_, Some err) => ([], Some err)
  end.
Proof.
  unfold parseEntryNodes_of. rewrite parseEntryNodes_loop_app.
  destruct (parseEntryNodes_loop env l1 []) as [ps1 [err|]]; [reflexivity|].
  apply parseEntryNodes_loop_acc.
Qed.

(** X3: an error of the call comes with no peers; it is the error of the
    first descriptor that is neither empty nor well-formed, every descriptor
    before it being empty or well-formed; and it wraps either
    [ErrParsingEntryNode] or the error the address parser or the resolver
    returned, which [errors.Is] therefore finds. *)
Theorem parseEntryNodes_error_origin (env : Env) (l : list string)
    (ps : list Peer) (err : error) :
  parseEntryNodes_of env l = (ps, Some err) ->
  ps = [] /\
  (exists pre d rest,
     l = pre ++ d :: rest /\
     Forall (fun x => x = "" \/ wellFormed env x) pre /\
     d <> "" /\ ~ wellFormed env d /\
     parseEntryNodes_of env [d] = ([], Some err)) /\
  (exists msg inner,
     err = wrapError msg inner /\
     errors_Is err inner = true /\
     (inner = ErrParsingEntryNode \/
      (exists addr, ParseOriginAddress env addr = inl inner) \/
      (exists host, GetIPAddressesFromHost env host = inl inner))).
Proof.
  unfold parseEntryNodes_of. intros H. split; [|split].
  - now apply parseEntryNodes_loop_error in H.
  - apply parseEntryNodes_loop_failure in H
      as (pre & d & rest & -> & Hpre & Hd & He).
    exists pre, d, rest. repeat split; auto.
    + now apply parseEntryNode_inl_not_wellFormed in He.
    + rewrite parseEntryNodes_loop_cons, He.
      apply String.eqb_neq in Hd. now rewrite Hd.
  - apply parseEntryNodes_loop_failure in H
      as (pre & d & rest & -> & Hpre & Hd & He).
    apply parseEntryNode_inl in He as (msg & inner & -> & Hk).
    exists msg, inner. split; [reflexivity|].
    split; [apply errors_Is_wrapped|exact Hk].
Qed.

(** A good descriptor, then one whose host does not resolve. *)
Lemma parseEntryNodes_error_origin_witness :
  [] = ([] : list Peer) /\
  (exists pre d rest,
     ["AQID@10.0.0.1:14626"; "AQID@unknown.invalid:1"; "x"]
       = pre ++ d :: rest /\
     Forall (fun x => x = "" \/ wellFormed Sample.quiet x) pre /\
     d <> "" /\ ~ wellFormed Sample.quiet d /\
     parseEntryNodes_of Sample.quiet [d]
     = ([], Some (wrapError
                    "could not resolve host: while handling unknown.invalid:1"
                    (errorString "could not resolve host")))) /\
  (exists msg inner,
     wrapError "could not resolve host: while handling unknown.invalid:1"
       (errorString "could not resolve host") = wrapError msg inner /\
     errors_Is
       (wrapError "could not resolve host: while handling unknown.invalid:1"
          (errorString "could not resolve host")) inner = true /\
     (inner = ErrParsingEntryNode \/
      (exists addr, ParseOriginAddress Sample.quiet addr = inl inner) \/
      (exists host, GetIPAddressesFromHost Sample.quiet host = inl inner))).
Proof.
  apply (parseEntryNodes_error_origin Sample.quiet
           ["AQID@10.0.0.1:14626"; "AQID@unknown.invalid:1"; "x"]).
  vm_compute. reflexivity.
Defined.

(** X4: a descriptor of two parts with a valid key whose address does not
    parse fails with an error that wraps the address parser's error and
    names the address; if the address parses and its host does not resolve,
    the error wraps the resolver's error and names the address.  In both
    cases [errors.Is] finds the wrapped error. *)
Theorem parseEntryNodes_address_errors (env : Env) (d key addr : string)
    (pubKey : list Byte.byte) (rest : list string) :
  strings_Split d "@" = [key; addr] ->
  DecodeString key = (pubKey, None) ->
  (forall err,
     ParseOriginAddress env addr = inl err ->
     parseEntryNodes_of env (d :: rest)
     = ([], Some (wrapError
                    (Error err +:+ ": invalid entry node address " +:+ addr)
                    err)) /\
     errors_Is (wrapError
                  (Error err +:+ ": invalid entry node address " +:+ addr)
                  err) err = true) /\
  (forall entryAddr err,
     ParseOriginAddress env addr = inr entryAddr ->
     GetIPAddressesFromHost env (Addr entryAddr) = inl err ->
     parseEntryNodes_of env (d :: rest)
     = ([], Some (wrapError (Error err +:+ ": while handling " +:+ addr) err)) /\
     errors_Is (wrapError (Error err +:+ ": while handling " +:+ addr) err) err
     = true).
Proof.
  intros Hs Hk.
  assert (Hd : d <> "") by (intros ->; discriminate Hs).
  split.
  - intros err Ha. split; [|apply errors_Is_wrapped].
    apply parseEntryNodes_of_first_error; [exact Hd|].
    unfold parseEntryNode. rewrite Hs. simpl. now rewrite Hk, Ha.
  - intros oa err Ha Hi. split; [|apply errors_Is_wrapped].
    apply parseEntryNodes_of_first_error; [exact Hd|].
    unfold parseEntryNode. rewrite Hs. simpl. now rewrite Hk, Ha, Hi.
Qed.

(** An address without a port, in front of a descriptor never parsed. *)
Lemma parseEntryNodes_address_errors_witness :
  parseEntryNodes_of Sample.quiet ["AQID@10.0.0.3"; "abc"]
  = ([], Some (wrapError
                 (Error (AddrError "missing port in address" "10.0.0.3")
                  +:+ ": invalid entry node address " +:+ "10.0.0.3")
                 (AddrError "missing port in address" "10.0.0.3"))) /\
  errors_Is (wrapError
               (Error (AddrError "missing port in address" "10.0.0.3")
                +:+ ": invalid entry node address " +:+ "10.0.0.3")
               (AddrError "missing port in address" "10.0.0.3"))
            (AddrError "missing port in address" "10.0.0.3") = true.
Proof.
  apply (proj1 (parseEntryNodes_address_errors Sample.quiet "AQID@10.0.0.3"
                  "AQID" "10.0.0.3" ["001"; "002"; "003"]%byte ["abc"]
                  eq_refl eq_refl)).
  reflexivity.
Defined.

(** ** The shape of a descriptor, by its at signs *)

Lemma strings_Split_nonempty s c : strings_Split s c <> [].
Proof.
  destruct s as [|a s]; simpl; [discriminate|].
  destruct (Ascii.eqb a c); [discriminate|].
  destruct (strings_Split s c); discriminate.
Qed.

Lemma strings_Split_length s c :
  length (strings_Split s c) = S (strings_Count s c).
Proof.
  induction s as [|a s IH]; simpl; [reflexivity|].
  destruct (Ascii.eqb a c); simpl; [now rewrite IH|].
  destruct (strings_Split s c) as [|h t] eqn:E; [|exact IH].
  now destruct (strings_Split_nonempty s c).
Qed.

Lemma strings_Join_Split s c : strings_Join (strings_Split s c) c = s.
Proof.
  induction s as [|a s IH]; simpl; [reflexivity|].
  destruct (Ascii.eqb a c) eqn:E.
  - apply Ascii.eqb_eq in E. subst a.
    destruct (strings_Split s c) as [|h t] eqn:Hs;
      [now destruct (strings_Split_nonempty s c)|].
    simpl. now rewrite <- IH.
  - destruct (strings_Split s c) as [|h t] eqn:Hs;
      [now destruct (strings_Split_nonempty s c)|].
    rewrite <- IH. destruct t; reflexivity.
Qed.

Lemma strings_Split_no_sep s c :
  Forall (fun p => strings_Count p c = 0%nat) (strings_Split s c).
Proof.
  induction s as [|a s IH]; simpl; [repeat constructor|].
  destruct (Ascii.eqb a c) eqn:E; [constructor; [reflexivity|exact IH]|].
  destruct (strings_Split s c) as [|h t]; [repeat constructor; simpl; now rewrite E|].
  inversion IH; subst. constructor; [simpl; now rewrite E|assumption].
Qed.

(** X5: a descriptor that is not empty has the right shape exactly when it
    holds one at sign.  With any other number of at signs the call fails
    with the shape error, which reports that number plus one; with exactly
    one, the descriptor is the key, the at sign and the address, neither
    holding an at sign, and these are the two parts the loop goes on
    with. *)
Theorem parseEntryNodes_at_signs (env : Env) (d : string) (rest : list string) :
  d <> "" ->
  (strings_Count d "@" <> 1%nat ->
   parseEntryNodes_of env (d :: rest)
   = ([], Some (wrapError
                  ("can't parse entry node: entry node parts must be 2, is "
                   +:+ itoa (N.of_nat (S (strings_Count d "@"))))
                  ErrParsingEntryNode))) /\
  (strings_Count d "@" = 1%nat ->
   exists key addr,
     strings_Split d "@" = [key; addr] /\
     d = key +:+ "@" +:+ addr /\
     strings_Count key "@" = 0%nat /\
     strings_Count addr "@" = 0%nat).
Proof.
  intros Hd. split.
  - intros Hc.
    rewrite <- (strings_Split_length d "@").
    apply parseEntryNodes_of_first_error; [exact Hd|].
    apply parseEntryNode_bad_shape. rewrite strings_Split_length. lia.
  - intros Hc.
    assert (Hl : length (strings_Split d "@") = 2%nat)
      by (rewrite strings_Split_length; lia).
    apply length_two in Hl as (key & addr & Hs).
    exists key, addr. split; [exact Hs|].
    pose proof (strings_Join_Split d "@") as Hj. rewrite Hs in Hj.
    pose proof (strings_Split_no_sep d "@") as Hn. rewrite Hs in Hn.
    inversion Hn as [|? ? Hk Hn']; subst. inversion Hn' as [|? ? Ha _]; subst.
    repeat split; auto.
Qed.

(** Two at signs, and one. *)
Lemma parseEntryNodes_at_signs_witness :
  parseEntryNodes_of Sample.quiet ["a@b@c"; "AQID@10.0.0.1:14626"]
  = ([], Some (wrapError
                 ("can't parse entry node: entry node parts must be 2, is "
                  +:+ itoa (N.of_nat (S (strings_Count "a@b@c" "@"))))
                 ErrParsingEntryNode)) /\
  exists key addr,
    strings_Split "AQID@10.0.0.1:14626" "@" = [key; addr] /\
    "AQID@10.0.0.1:14626" = key +:+ "@" +:+ addr /\
    strings_Count key "@" = 0%nat /\
    strings_Count addr "@" = 0%nat.
Proof.
  split.
  - apply (proj1 (parseEntryNodes_at_signs Sample.quiet "a@b@c"
                    ["AQID@10.0.0.1:14626"] ltac:(discriminate))).
    vm_compute. discriminate.
  - apply (proj2 (parseEntryNodes_at_signs Sample.quiet "AQID@10.0.0.1:14626"
                    [] ltac:(discriminate))).
    reflexivity.
Defined.

(** ** Entry nodes and the validator *)

(** X6: no peer built by the parser is a valid neighbour: an entry node
    registers the peering service only, so [isValidNeighbor] returns false
    for it. *)
Theorem entry_nodes_are_not_neighbours (env : Env) (l : list string)
    (ps : list Peer) (p : Peer) :
  parseEntryNodes_of env l = (ps, None) ->
  In p ps ->
  isValidNeighbor p = Return false.
Proof.
  intros H Hin.
  apply parseEntryNodes_loop_success in H as (_ & new & -> & Hnew).
  simpl in Hin.
  apply isValidNeighbor_no_gossip.
  revert Hin. induction Hnew as [|d q ds qs Hq _ IH]; [intros []|].
  intros [->|Hin]; [|now apply IH].
  destruct Hq as (key & addr & oa & ips & ep & _ & _ & _ & _ & _ & Honly & _).
  apply Honly. discriminate.
Qed.

(** Two entry nodes; the second one is asked. *)
Lemma entry_nodes_are_not_neighbours_witness :
  isValidNeighbor
    (NewPeer ["h"; "e"; "l"; "l"; "o"; " "; "w"; "o"; "r"; "l"; "d"]%byte
       (Update service_New PeeringKey "udp" "192.0.2.9:80"))
  = Return false.
Proof.
  apply (entry_nodes_are_not_neighbours Sample.quiet
           ["AQID@10.0.0.1:14626"; ""; "aGVsbG8gd29ybGQ=@192.0.2.9:80"]
           [NewPeer ["001"; "002"; "003"]%byte
              (Update service_New PeeringKey "udp" "10.0.0.1:14626");
            NewPeer ["h"; "e"; "l"; "l"; "o"; " "; "w"; "o"; "r"; "l"; "d"]%byte
              (Update service_New PeeringKey "udp" "192.0.2.9:80")]).
  - vm_compute. reflexivity.
  - right. left. reflexivity.
Defined.

(** ** The configuration step and the entry nodes *)

(** X7: [configureAP] always returns normally and leaves [ID] alone;
    [Selection] is built on the [Discovery] just built, with
    [isValidNeighbor] as its validator.  The master peers are all or
    nothing: the peers of all descriptors that are not empty when each of
    them is well-formed, and none at all as soon as one is not. *)
Theorem configureAP_master_peers (env : Env) (w : world) :
  exists w' mp,
    configureAP env w = (Done tt, w') /\
    Discovery w' = Some {| disc_local := local_GetInstance env;
                           disc_MasterPeers := mp |} /\
    Selection w' = Some {| sel_local := local_GetInstance env;
                           sel_disc := Discovery w';
                           sel_NeighborValidator := isValidNeighbor |} /\
    ID w' = ID w /\
    (Forall (fun d => d = "" \/ wellFormed env d)
       (GetStringSlice env (CFG_ENTRY_NODES env)) ->
     Forall2 (parsedFrom env)
       (filter (fun d => d <> "") (GetStringSlice env (CFG_ENTRY_NODES env)))
       mp) /\
    (~ Forall (fun d => d = "" \/ wellFormed env d)
         (GetStringSlice env (CFG_ENTRY_NODES env)) ->
     mp = []).
Proof.
  rewrite configureAP_runs. eexists. exists (fst (parseEntryNodes env)).
  split; [reflexivity|]. repeat apply conj; try reflexivity.
  - intros Hall. unfold parseEntryNodes, parseEntryNodes_of.
    pose proof (parseEntryNodes_loop_all_wellFormed env _ [] Hall) as Hnone.
    destruct (parseEntryNodes_loop env _ []) as [ps [err|]] eqn:H;
      [discriminate Hnone|].
    apply parseEntryNodes_loop_success in H as (_ & new & -> & Hnew).
    exact Hnew.
  - intros Hnot. unfold parseEntryNodes, parseEntryNodes_of.
    destruct (parseEntryNodes_loop env _ []) as [ps [err|]] eqn:H.
    + apply parseEntryNodes_loop_error in H. now subst ps.
    + apply parseEntryNodes_loop_success in H as (Hall & _).
      now destruct Hnot.
Qed.

(** ** The self-test *)

(** X8: [checkConnection] changes no package variable and registers no
    deferred call.  It returns exactly when the peer has a peering end
    point, that end point resolves and [CheckUDP] reports no error, having
    called [CheckUDP] once, without address check and with port check.  A
    peer without peering service makes it panic on the nil end point, and an
    end point that does not resolve makes it panic with the resolver's
    error, in both cases before [CheckUDP] is called.  It never exits the
    process. *)
Theorem checkConnection_outcomes (env : Env) (localAddr : UDPAddr env)
    (self : Peer) (w : world) :
  (Discovery (snd (checkConnection env localAddr self w)) = Discovery w /\
   Selection (snd (checkConnection env localAddr self w)) = Selection w /\
   ID (snd (checkConnection env localAddr self w)) = ID w /\
   defers (snd (checkConnection env localAddr self w)) = defers w) /\
  (fst (checkConnection env localAddr self w) = Done tt <->
   exists a remoteAddr,
     Get (Services self) PeeringKey = Some a /\
     ResolveUDPAddr env (Network a) (String_ a) = inr remoteAddr /\
     CheckUDP env localAddr remoteAddr false true = None) /\
  (fst (checkConnection env localAddr self w) = Done tt ->
   trace (snd (checkConnection env localAddr self w))
   = trace w ++ [CallCheckUDP]) /\
  (Get (Services self) PeeringKey = None ->
   checkConnection env localAddr self w = (Panicking NilDereference, w)) /\
  (forall a err,
     Get (Services self) PeeringKey = Some a ->
     ResolveUDPAddr env (Network a) (String_ a) = inl err ->
     checkConnection env localAddr self w = (Panicking (PanicError err), w)) /\
  (fst (checkConnection env localAddr self w) = Done tt \/
   exists v, fst (checkConnection env localAddr self w) = Panicking v).
Proof.
  destruct w as [D S I t ds]. exec.
  destruct (Get (Services self) PeeringKey) as [a|] eqn:Hp; exec;
    [destruct (ResolveUDPAddr env (Network a) (String_ a)) as [err|ra] eqn:Hr;
       exec;
       [|destruct (CheckUDP env localAddr ra false true) as [err|] eqn:Hc;
           exec]|];
    repeat apply conj;
    try reflexivity; try discriminate;
    try (intros (a' & ra' & Ha' & Hr' & Hc'); congruence);
    try (intros a' err' Ha' Hr'; congruence);
    try (intros _; now exists a, ra);
    eauto.
Qed.

(** ** The supervisor: every way out *)

(** X9: what [start] does when it fails before the self-test or inside it
    for want of an address.  Without a peering service of the local peer it
    panics on the nil end point; with an end point that does not split it
    panics with the error of [SplitHostPort]; with an advertised address
    that does not resolve it panics with the resolver's error; in these
    three cases the deferred last log line is still written.  With a bind
    address that does not resolve it logs the name of the bind setting with
    the error and exits the process, and the deferred log line is not
    written. *)
Theorem start_early_failures (env : Env) (w : world) :
  (Get (Services (local_GetInstance env)) PeeringKey = None ->
   start env w =
   (Panicking NilDereference,
    {| Discovery := Discovery w; Selection := Selection w; ID := ID w;
       trace := trace w ++ [Log Info "Stopping Autopeering ... done" []];
       defers := [] |})) /\
  (forall a err,
     Get (Services (local_GetInstance env)) PeeringKey = Some a ->
     SplitHostPort (String_ a) = inl err ->
     start env w =
     (Panicking (PanicError err),
      {| Discovery := Discovery w; Selection := Selection w; ID := ID w;
         trace := trace w ++ [Log Info "Stopping Autopeering ... done" []];
         defers := [] |})) /\
  (forall a host port err,
     Get (Services (local_GetInstance env)) PeeringKey = Some a ->
     SplitHostPort (String_ a) = inr (host, port) ->
     ResolveUDPAddr env (Network a)
       (JoinHostPort (GetString env (CFG_BIND env)) port) = inl err ->
     start env w =
     (Exit 1,
      {| Discovery := Discovery w; Selection := Selection w; ID := ID w;
         trace :=
           trace w ++
           [Log Fatal "Error resolving %s: %v"
              [AString (CFG_BIND env); AError err]];
         defers := [DeferLogInfo "Stopping Autopeering ... done"] |})) /\
  (forall a host port la err,
     Get (Services (local_GetInstance env)) PeeringKey = Some a ->
     SplitHostPort (String_ a) = inr (host, port) ->
     ResolveUDPAddr env (Network a)
       (JoinHostPort (GetString env (CFG_BIND env)) port) = inr la ->
     ResolveUDPAddr env (Network a) (String_ a) = inl err ->
     start env w =
     (Panicking (PanicError err),
      {| Discovery := Discovery w; Selection := Selection w; ID := ID w;
         trace :=
           trace w ++
           [Log Info "Testing service ..." [];
            Log Info "Stopping Autopeering ... done" []];
         defers := [] |})).
Proof.
  destruct w as [D S I t ds]. repeat apply conj.
  - intros Hp. exec. rewrite Hp. exec. reflexivity.
  - intros a err Hp Hs. exec. rewrite Hp. exec. rewrite Hs. exec.
    reflexivity.
  - intros a host port err Hp Hs Hl. exec. rewrite Hp. exec. rewrite Hs.
    exec. rewrite Hl. exec. reflexivity.
  - intros a host port la err Hp Hs Hl Hr. exec. rewrite Hp. exec.
    rewrite Hs. exec. rewrite Hl. exec. rewrite Hr. exec.
    now rewrite <- !app_assoc.
Qed.

(** The local peer of this host advertises an address without a port. *)
Lemma start_early_failures_witness :
  fst (start portlessHost initial)
  = Panicking (PanicError (AddrError "missing port in address" "192.0.2.7")).
Proof.
  rewrite (proj1 (proj2 (start_early_failures portlessHost initial))
             {| Network := "udp"; String_ := "192.0.2.7" |}
             (AddrError "missing port in address" "192.0.2.7")
             eq_refl eq_refl).
  reflexivity.
Defined.

(** X10: with the startup done and no shutdown signal, [start] stays
    blocked: [ID] is set, both start lines are logged, nothing has been
    closed, and every close is still on the defer stack, the most recent
    resource on top. *)
Theorem start_blocks_without_signal (env : Env) (w : world)
    (d : discover_Protocol) (a : networkAddress) (host port : string)
    (la ra : UDPAddr env) :
  Discovery w = Some d ->
  startupSucceeds env a host port la ra ->
  shutdownSignal env = false ->
  start env w =
  (Blocked,
   {| Discovery := Some d;
      Selection := Selection w;
      ID := local_ID_String env;
      trace :=
        trace w ++ startupTrace env a (bool_decide (is_Some (Selection w)));
      defers :=
        (if bool_decide (is_Some (Selection w))
         then [DeferClose SelectionH] else []) ++
        [DeferClose DiscoveryH; DeferClose srv; DeferClose trans;
         DeferClose conn; DeferLogInfo "Stopping Autopeering ... done"] |}) /\
  closed (startupTrace env a (bool_decide (is_Some (Selection w)))) = [].
Proof.
  intros HD Hok Hsig. split.
  - unfold start, with_defers.
    rewrite (start_body_startup env w d a host port la ra HD Hok), Hsig.
    cbv beta iota. now rewrite app_nil_r.
  - destruct (bool_decide (is_Some (Selection w))); reflexivity.
Qed.

(** The example host, never told to stop. *)
Lemma start_blocks_without_signal_witness :
  fst (start (Sample.host [] None None (fun _ => CloseOk) false)
         (Sample.configured (Sample.host [] None None (fun _ => CloseOk) false)))
  = Blocked.
Proof.
  rewrite (proj1 (start_blocks_without_signal
                    (Sample.host [] None None (fun _ => CloseOk) false)
                    (Sample.configured
                       (Sample.host [] None None (fun _ => CloseOk) false))
                    {| disc_local := Sample.localPeer; disc_MasterPeers := [] |}
                    {| Network := "udp"; String_ := "192.0.2.7:14626" |}
                    "192.0.2.7" "14626" "0.0.0.0:14626" "192.0.2.7:14626"
                    eq_refl
                    ltac:(repeat apply conj; vm_compute; reflexivity)
                    eq_refl)).
  reflexivity.
Defined.

Lemma closed_app (xs ys : list event) : closed (xs ++ ys) = closed xs ++ closed ys.
Proof. apply omap_app. Qed.

Lemma acquired_app (xs ys : list event) :
  acquired (xs ++ ys) = acquired xs ++ acquired ys.
Proof. apply omap_app. Qed.

Lemma closed_event_of (ds : list deferred) (rs : list resource) (msg : string) :
  ds = map DeferClose rs ++ [DeferLogInfo msg] ->
  closed (map event_of ds) = rs /\ acquired (map event_of ds) = [].
Proof.
  intros ->. induction rs as [|r rs [IH1 IH2]]; [split; reflexivity|].
  split; [change (r :: closed (map event_of (map DeferClose rs ++ [DeferLogInfo msg])) = r :: rs); now rewrite IH1|exact IH2].
Qed.

(** Every path through the body of [start]: the package variables it
    leaves, and the closes it has stacked against what it has acquired. *)
Lemma start_body_paths (env : Env) (w : world) :
  Discovery (snd (start_body env (set_defers [] w))) = Discovery w /\
  Selection (snd (start_body env (set_defers [] w))) = Selection w /\
  (ID (snd (start_body env (set_defers [] w))) = ID w \/
   ID (snd (start_body env (set_defers [] w))) = local_ID_String env) /\
  exists evs,
    trace (snd (start_body env (set_defers [] w))) = trace w ++ evs /\
    closed evs = [] /\
    match fst (start_body env (set_defers [] w)) with
    | Done _ | Panicking _ =>
        defers (snd (start_body env (set_defers [] w)))
        = map DeferClose (rev (acquired evs))
          ++ [DeferLogInfo "Stopping Autopeering ... done"]
    | Exit _ | Blocked => True
    end.
Proof.
  destruct w as [D S I t ds]. exec.
  destruct (Get (Services (local_GetInstance env)) PeeringKey)
    as [a|]; exec; [|path_leaf].
  destruct (SplitHostPort (String_ a)) as [err|[host port]]; exec;
    [path_leaf|].
  destruct (ResolveUDPAddr env (Network a)
              (JoinHostPort (GetString env (CFG_BIND env)) port))
    as [err|la]; exec; [path_leaf|].
  destruct (ResolveUDPAddr env (Network a) (String_ a))
    as [err|ra]; exec; [path_leaf|].
  destruct (CheckUDP env la ra false true) as [err|]; exec; [path_leaf|].
  destruct (ListenUDP env (Network a) la) as [err|]; exec; [path_leaf|].
  destruct D as [d|]; exec; [|destruct S; path_leaf].
  destruct S as [s|], (shutdownSignal env); exec; path_leaf.
Qed.

Lemma start_paths (env : Env) (w : world) :
  Discovery (snd (start env w)) = Discovery w /\
  Selection (snd (start env w)) = Selection w /\
  (ID (snd (start env w)) = ID w \/
   ID (snd (start env w)) = local_ID_String env) /\
  exists evs,
    trace (snd (start env w)) = trace w ++ evs /\
    match fst (start env w) with
    | Done _ | Panicking _ => closed evs = rev (acquired evs)
    | Exit _ | Blocked => closed evs = []
    end.
Proof.
  destruct (start_body_paths env w) as (HD & HS & HI & evs & Htr & Hcl & Hdef).
  unfold start, with_defers.
  destruct (start_body env (set_defers [] w)) as [o w1].
  cbn [fst snd] in *.
  assert (Hrun : forall st,
            exists o',
              run_defers env (defers w1) st (set_defers [] w1) =
              (o', {| Discovery := Discovery w1; Selection := Selection w1;
                      ID := ID w1;
                      trace := trace w1 ++ map event_of (defers w1);
                      defers := [] |}) /\
              (o' = st \/ exists v, o' = Panicking v)).
  { intros st.
    destruct (run_defers_effect env (defers w1) st (set_defers [] w1))
      as (o' & -> & _ & _ & Hor).
    exists o'. split; [reflexivity|exact Hor]. }
  assert (Hbal : forall ds,
            ds = map DeferClose (rev (acquired evs))
                 ++ [DeferLogInfo "Stopping Autopeering ... done"] ->
            closed (evs ++ map event_of ds)
            = rev (acquired (evs ++ map event_of ds))).
  { intros ds Hds.
    destruct (closed_event_of ds _ _ Hds) as [Hc Ha].
    now rewrite closed_app, acquired_app, Hcl, Hc, Ha, app_nil_r. }
  destruct o as [[]|v|c|].
  - destruct (Hrun (Done tt)) as (o' & -> & Hor). cbn [fst snd Discovery
      Selection ID trace].
    repeat apply conj; auto.
    exists (evs ++ map event_of (defers w1)).
    split; [now rewrite Htr, <- app_assoc|].
    destruct Hor as [->|[v ->]]; now apply Hbal.
  - destruct (Hrun (Panicking v)) as (o' & -> & Hor). cbn [fst snd Discovery
      Selection ID trace].
    repeat apply conj; auto.
    exists (evs ++ map event_of (defers w1)).
    split; [now rewrite Htr, <- app_assoc|].
    destruct Hor as [->|[v' ->]]; now apply Hbal.
  - cbn [fst snd]. repeat apply conj; auto. now exists evs.
  - cbn [fst snd]. repeat apply conj; auto. now exists evs.
Qed.

(** X11: [start] never assigns [Discovery] or [Selection], on any path and
    whatever the host does; and [ID] is either left as it was or set to the
    identifier of the local peer. *)
Theorem start_preserves_protocols (env : Env) (w : world) :
  Discovery (snd (start env w)) = Discovery w /\
  Selection (snd (start env w)) = Selection w /\
  (ID (snd (start env w)) = ID w \/
   ID (snd (start env w)) = local_ID_String env).
Proof.
  destruct (start_paths env w) as (HD & HS & HI & _). auto.
Qed.

(** X12: [start] closes exactly what it acquired.  Whenever it returns or
    panics, on any path and whatever each [Close] does, the resources
    closed are the resources acquired, each once, in reverse order of
    acquisition; when it exits the process or stays blocked it has closed
    nothing. *)
Theorem start_closes_what_it_acquired (env : Env) (w : world) :
  exists evs,
    trace (snd (start env w)) = trace w ++ evs /\
    match fst (start env w) with
    | Done _ | Panicking _ => closed evs = rev (acquired evs)
    | Exit _ | Blocked => closed evs = []
    end.
Proof.
  destruct (start_paths env w) as (_ & _ & _ & H). exact H.
Qed.

(** [start] before [configureAP], with [Discovery] still nil: it panics
    after serving, and the three resources it holds are closed. *)
Example start_unconfigured :
  fst (start Sample.closing initial) = Panicking NilDereference /\
  acquired (trace (snd (start Sample.closing initial))) = [conn; trans; srv] /\
  closed (trace (snd (start Sample.closing initial))) = [srv; trans; conn].
Proof. repeat apply conj; vm_compute; reflexivity. Qed.

(** ** Host and port: splitting what was joined *)

Lemma strings_Count_append a b c :
  strings_Count (a +:+ b) c = (strings_Count a c + strings_Count b c)%nat.
Proof.
  induction a as [|x a IH]; [reflexivity|].
  rewrite append_String. simpl. destruct (Ascii.eqb x c); now rewrite IH.
Qed.

Lemma append_assoc a b c : (a +:+ b) +:+ c = a +:+ (b +:+ c).
Proof.
  induction a as [|x a IH]; [reflexivity|].
  rewrite !append_String. now rewrite IH.
Qed.

Lemma len_append a b : len (a +:+ b) = len a + len b.
Proof. unfold len. rewrite length_append. lia. Qed.

(** Where the first [c] is, by the number of [c]s. *)
Lemma IndexByteString_spec s c :
  (strings_Count s c = 0%nat /\ IndexByteString s c = -1) \/
  (strings_Count s c <> 0%nat /\ 0 <= IndexByteString s c < len s).
Proof.
  induction s as [|a s IH]; simpl; [now left|].
  rewrite len_String. pose proof (len_nonneg s).
  destruct (Ascii.eqb a c); [right; split; [discriminate|lia]|].
  destruct IH as [[-> ->]|[Hc Hi]]; [now left|right].
  split; [exact Hc|].
  destruct (IndexByteString s c <? 0) eqn:E; [apply Z.ltb_lt in E; lia|lia].
Qed.

Lemma IndexByteString_none s c :
  strings_Count s c = 0%nat -> IndexByteString s c = -1.
Proof. destruct (IndexByteString_spec s c) as [[_ H]|[H _]]; tauto. Qed.

Lemma IndexByteString_neg s c :
  IndexByteString s c < 0 -> strings_Count s c = 0%nat.
Proof. destruct (IndexByteString_spec s c) as [[H _]|[_ H]]; [tauto|lia]. Qed.

Lemma LastIndexByteString_spec s c :
  (strings_Count s c = 0%nat /\ LastIndexByteString s c = -1) \/
  (strings_Count s c <> 0%nat /\ 0 <= LastIndexByteString s c < len s).
Proof.
  induction s as [|a s IH]; simpl; [now left|].
  rewrite len_String. pose proof (len_nonneg s).
  destruct IH as [[Hc ->]|[Hc Hi]].
  - simpl. destruct (Ascii.eqb a c); [right; split; [discriminate|lia]|].
    now left.
  - right. destruct (0 <=? LastIndexByteString s c) eqn:E;
      [|apply Z.leb_gt in E; lia].
    split; [destruct (Ascii.eqb a c); [discriminate|exact Hc]|lia].
Qed.

Lemma LastIndexByteString_none s c :
  strings_Count s c = 0%nat -> LastIndexByteString s c = -1.
Proof. destruct (LastIndexByteString_spec s c) as [[_ H]|[H _]]; tauto. Qed.

Lemma IndexByteString_app_sep a b c :
  strings_Count a c = 0%nat ->
  IndexByteString (a +:+ String c b) c = len a.
Proof.
  induction a as [|x a IH]; intros Hc.
  - rewrite append_empty. simpl. now rewrite Ascii.eqb_refl.
  - rewrite append_String, len_String. simpl in *.
    destruct (Ascii.eqb x c); [discriminate|].
    rewrite (IH Hc). pose proof (len_nonneg a).
    destruct (len a <? 0) eqn:E; [apply Z.ltb_lt in E; lia|reflexivity].
Qed.

(** Slices that run to the end. *)
Lemma slice_to_end s (n : nat) :
  slice s (Z.of_nat n) (len s) = tail_from n s.
Proof.
  unfold slice, len. rewrite Nat2Z.id.
  replace (Z.to_nat (Z.of_nat (String.length s) - Z.of_nat n))
    with (String.length s - n)%nat by lia.
  revert n. induction s as [|a s IH]; intros [|n]; simpl; try reflexivity.
  - now rewrite substring_all.
  - apply IH.
Qed.

Lemma tail_from_append a b : tail_from (String.length a) (a +:+ b) = b.
Proof. induction a as [|x a IH]; [reflexivity|]. rewrite append_String. exact IH. Qed.

Lemma tail_from_count n s c :
  strings_Count s c = 0%nat -> strings_Count (tail_from n s) c = 0%nat.
Proof.
  revert s. induction n as [|n IH]; intros [|a s]; simpl; auto.
  destruct (Ascii.eqb a c); [discriminate|apply IH].
Qed.

Lemma tail_from_add n m s : tail_from (n + m) s = tail_from m (tail_from n s).
Proof.
  revert s. induction n as [|n IH]; intros s; [reflexivity|].
  destruct s as [|a s]; simpl; [now destruct m|apply IH].
Qed.

Lemma substring_prefix a b : substring 0 (String.length a) (a +:+ b) = a.
Proof.
  induction a as [|x a IH]; [now destruct b|].
  rewrite append_String. simpl. now rewrite IH.
Qed.

Lemma slice_prefix a b : slice (a +:+ b) 0 (len a) = a.
Proof.
  unfold slice, len. rewrite Z.sub_0_r, Nat2Z.id. apply substring_prefix.
Qed.

Lemma slice_full s : slice s 0 (len s) = s.
Proof. apply (slice_to_end s 0). Qed.

Lemma byteAt_0 a s : byteAt (String a s) 0 = Some a.
Proof. reflexivity. Qed.

Lemma byteAt_0_not s t (c : ascii) :
  strings_Count s c = 0%nat -> strings_Count t c = 0%nat ->
  bool_decide (byteAt (s +:+ t) 0 = Some c) = false.
Proof.
  intros Hs Ht. apply bool_decide_eq_false_2.
  destruct s as [|x s]; [rewrite append_empty; destruct t as [|y t]|];
    [discriminate| |rewrite append_String]; rewrite byteAt_0; intros [= ->];
    simpl in *; rewrite Ascii.eqb_refl in *; discriminate.
Qed.

(** A host without colon, then a colon and the port. *)
Lemma SplitHostPort_plain h p :
  strings_Count h ":" = 0%nat ->
  strings_Count h "[" = 0%nat -> strings_Count h "]" = 0%nat ->
  strings_Count p ":" = 0%nat ->
  strings_Count p "[" = 0%nat -> strings_Count p "]" = 0%nat ->
  SplitHostPort (h +:+ String ":" p) = inr (h, p).
Proof.
  intros Hhc Hho Hhe Hpc Hpo Hpe.
  unfold SplitHostPort. cbv zeta.
  rewrite (LastIndexByteString_app_sep h p ":")
    by now apply LastIndexByteString_none.
  pose proof (len_nonneg h) as Hl.
  destruct (len h <? 0) eqn:E; [apply Z.ltb_lt in E; lia|clear E].
  rewrite byteAt_0_not by (simpl; assumption).
  rewrite slice_prefix, (IndexByteString_none h ":" Hhc).
  cbv beta iota. change (0 <=? -1) with false. cbv iota.
  rewrite slice_full.
  rewrite !IndexByteString_none
    by (rewrite strings_Count_append; simpl; lia).
  change (0 <=? -1) with false. cbv iota.
  now rewrite slice_after_sep.
Qed.

(** A host in brackets, then a colon and the port. *)
Lemma SplitHostPort_bracketed h p :
  strings_Count h "[" = 0%nat -> strings_Count h "]" = 0%nat ->
  strings_Count p ":" = 0%nat ->
  strings_Count p "[" = 0%nat -> strings_Count p "]" = 0%nat ->
  SplitHostPort (String "[" (h +:+ String "]" (String ":" p))) = inr (h, p).
Proof.
  intros Hho Hhe Hpc Hpo Hpe.
  pose proof (len_nonneg h) as Hl. pose proof (len_nonneg p) as Hlp.
  set (hp := String "[" (h +:+ String "]" (String ":" p))).
  assert (Hhp : hp = (String "[" (h +:+ "]")) +:+ String ":" p).
  { unfold hp. rewrite append_String, append_assoc. reflexivity. }
  assert (Hlen : len hp = len h + 3 + len p).
  { unfold hp. rewrite len_String, len_append, !len_String. lia. }
  assert (Hi : LastIndexByteString hp ":" = len h + 2).
  { rewrite Hhp, LastIndexByteString_app_sep
      by now apply LastIndexByteString_none.
    rewrite len_String, len_append. change (len "]") with 1. lia. }
  assert (He : IndexByteString hp "]" = len h + 1).
  { unfold hp. simpl IndexByteString.
    rewrite (IndexByteString_app_sep h (String ":" p) "]" Hhe).
    destruct (len h <? 0) eqn:E; [apply Z.ltb_lt in E; lia|reflexivity]. }
  unfold SplitHostPort. cbv zeta. rewrite Hi, He, Hlen.
  destruct (len h + 2 <? 0) eqn:E1; [apply Z.ltb_lt in E1; lia|clear E1].
  assert (Hb : bool_decide (byteAt hp 0 = Some "["%char) = true)
    by (apply bool_decide_eq_true_2; reflexivity).
  rewrite Hb.
  destruct (len h + 1 <? 0) eqn:E2; [apply Z.ltb_lt in E2; lia|clear E2].
  destruct (len h + 1 + 1 =? len h + 3 + len p) eqn:E3;
    [apply Z.eqb_eq in E3; lia|clear E3].
  destruct (len h + 1 + 1 =? len h + 2) eqn:E4;
    [clear E4|apply Z.eqb_neq in E4; lia].
  rewrite <- Hlen.
  assert (Hs1 : slice hp 1 (len hp) = h +:+ String "]" (String ":" p)).
  { apply (slice_to_end hp 1). }
  assert (Hs2 : slice hp (len h + 1 + 1) (len hp) = String ":" p).
  { replace (len h + 1 + 1) with (Z.of_nat (String.length (String "[" (h +:+ "]"))))
      by (simpl String.length; rewrite length_append; simpl; unfold len; lia).
    rewrite slice_to_end, Hhp. apply tail_from_append. }
  rewrite Hs1, Hs2.
  rewrite (IndexByteString_none (h +:+ String "]" (String ":" p)) "[")
    by (rewrite strings_Count_append; simpl; lia).
  change (0 <=? -1) with false. cbv iota.
  rewrite (IndexByteString_none (String ":" p) "]") by (simpl; lia).
  change (0 <=? -1) with false. cbv iota.
  f_equal. f_equal.
  - unfold hp, slice. simpl Z.to_nat.
    replace (Z.to_nat (len h + 1 - 1)) with (String.length h)
      by (unfold len; lia).
    simpl substring. apply substring_prefix.
  - replace (len h + 2 + 1) with (len (String "[" (h +:+ "]")) + 1)
      by (rewrite len_String, len_append; change (len "]") with 1; lia).
    rewrite Hhp. apply slice_after_sep.
Qed.

(** What [JoinHostPort] builds, [SplitHostPort] takes apart. *)
Lemma SplitHostPort_JoinHostPort host port :
  strings_Count host "[" = 0%nat -> strings_Count host "]" = 0%nat ->
  strings_Count port ":" = 0%nat ->
  strings_Count port "[" = 0%nat -> strings_Count port "]" = 0%nat ->
  SplitHostPort (JoinHostPort host port) = inr (host, port).
Proof.
  intros Hho Hhe Hpc Hpo Hpe. unfold JoinHostPort.
  destruct (0 <=? IndexByteString host ":") eqn:E.
  - change ("[" +:+ host +:+ "]:" +:+ port)
      with (String "[" (host +:+ String "]" (String ":" port))).
    now apply SplitHostPort_bracketed.
  - apply Z.leb_gt in E.
    change (host +:+ ":" +:+ port) with (host +:+ String ":" port).
    apply SplitHostPort_plain; auto. now apply IndexByteString_neg.
Qed.

Lemma LastIndexByteString_tail s c :
  0 <= LastIndexByteString s c ->
  strings_Count
    (tail_from (Z.to_nat (LastIndexByteString s c + 1)) s) c = 0%nat.
Proof.
  induction s as [|a s IH]; simpl LastIndexByteString; [lia|].
  destruct (LastIndexByteString_spec s c) as [[Hc Hi]|[Hc Hi]].
  - rewrite Hi. simpl. destruct (Ascii.eqb a c); [intros _; exact Hc|lia].
  - destruct (0 <=? LastIndexByteString s c) eqn:E;
      [|apply Z.leb_gt in E; lia].
    intros _.
    replace (Z.to_nat (LastIndexByteString s c + 1 + 1))
      with (S (Z.to_nat (LastIndexByteString s c + 1))) by lia.
    simpl. apply IH. lia.
Qed.

Lemma suffix_clean s (j : Z) (n : nat) c :
  0 <= j <= Z.of_nat n ->
  IndexByteString (slice s j (len s)) c < 0 ->
  strings_Count (tail_from n s) c = 0%nat.
Proof.
  intros Hj Hi. apply IndexByteString_neg in Hi.
  replace j with (Z.of_nat (Z.to_nat j)) in Hi by lia.
  rewrite slice_to_end in Hi.
  replace n with (Z.to_nat j + (n - Z.to_nat j))%nat by lia.
  rewrite tail_from_add. now apply tail_from_count.
Qed.

(** The port [SplitHostPort] returns holds no colon and no bracket. *)
Lemma SplitHostPort_port_clean hostport host port :
  SplitHostPort hostport = inr (host, port) ->
  strings_Count port ":" = 0%nat /\
  strings_Count port "[" = 0%nat /\
  strings_Count port "]" = 0%nat.
Proof.
  intros H. pose proof (SplitHostPort_port _ _ _ H) as Hp.
  unfold portOf in Hp. revert H. unfold SplitHostPort. cbv zeta.
  set (i := LastIndexByteString hostport ":") in *.
  destruct (i <? 0) eqn:Ei; [discriminate|]. apply Z.ltb_ge in Ei.
  assert (Hport : port = tail_from (Z.to_nat (i + 1)) hostport).
  { rewrite Hp. rewrite <- slice_to_end. f_equal. lia. }
  assert (Hcolon : strings_Count port ":" = 0%nat).
  { rewrite Hport. now apply LastIndexByteString_tail. }
  destruct (bool_decide (byteAt hostport 0 = Some "["%char)).
  - destruct (IndexByteString hostport "]" <? 0) eqn:Ee; [discriminate|].
    apply Z.ltb_ge in Ee.
    destruct (IndexByteString hostport "]" + 1 =? len hostport);
      [discriminate|].
    destruct (IndexByteString hostport "]" + 1 =? i) eqn:Eq;
      [|destruct (bool_decide _); discriminate].
    apply Z.eqb_eq in Eq.
    destruct (0 <=? IndexByteString (slice hostport 1 (len hostport)) "[")
      eqn:Eo; [discriminate|]. apply Z.leb_gt in Eo.
    destruct (0 <=? IndexByteString
                      (slice hostport (IndexByteString hostport "]" + 1)
                         (len hostport)) "]")
      eqn:Ec; [discriminate|]. apply Z.leb_gt in Ec.
    intros _. split; [exact Hcolon|]. rewrite Hport. split.
    + apply (suffix_clean hostport 1); [lia|exact Eo].
    + apply (suffix_clean hostport (IndexByteString hostport "]" + 1));
        [lia|exact Ec].
  - destruct (0 <=? IndexByteString (slice hostport 0 i) ":");
      [discriminate|].
    destruct (0 <=? IndexByteString (slice hostport 0 (len hostport)) "[")
      eqn:Eo; [discriminate|]. apply Z.leb_gt in Eo.
    destruct (0 <=? IndexByteString (slice hostport 0 (len hostport)) "]")
      eqn:Ec; [discriminate|]. apply Z.leb_gt in Ec.
    intros _. split; [exact Hcolon|]. rewrite Hport. split.
    + apply (suffix_clean hostport 0); [lia|exact Eo].
    + apply (suffix_clean hostport 0); [lia|exact Ec].
Qed.

(** X13: the address [start] binds to keeps the port of the advertised
    peering address: whenever the peering end point splits into a host and
    a port, joining the configured bind host (free of brackets) with that
    port gives an address that splits into the bind host and the same
    port. *)
Theorem start_bind_address_keeps_port (env : Env) (a : networkAddress)
    (host port : string) :
  SplitHostPort (String_ a) = inr (host, port) ->
  strings_Count (GetString env (CFG_BIND env)) "[" = 0%nat ->
  strings_Count (GetString env (CFG_BIND env)) "]" = 0%nat ->
  SplitHostPort (JoinHostPort (GetString env (CFG_BIND env)) port)
  = inr (GetString env (CFG_BIND env), port).
Proof.
  intros Hs Ho He.
  destruct (SplitHostPort_port_clean _ _ _ Hs) as (Hc & Hpo & Hpe).
  now apply SplitHostPort_JoinHostPort.
Qed.

(** The example host binds 0.0.0.0 on the port it advertises. *)
Lemma start_bind_address_keeps_port_witness :
  SplitHostPort (JoinHostPort (GetString Sample.quiet (CFG_BIND Sample.quiet))
                   "14626")
  = inr ("0.0.0.0", "14626").
Proof.
  apply (start_bind_address_keeps_port Sample.quiet
           {| Network := "udp"; String_ := "192.0.2.7:14626" |}
           "192.0.2.7" "14626"); reflexivity.
Defined.

(** X14: for a candidate whose gossip and peering addresses were built by
    [JoinHostPort] from hosts free of brackets and ports free of colons and
    brackets, [isValidNeighbor] returns whether the two hosts are equal; a
    host with colons, an IPv6 literal, is compared without its brackets. *)
Theorem isValidNeighbor_joined (p : Peer) (g e : networkAddress)
    (gh gp eh ep : string) :
  Get (Services p) GossipServiceKey = Some g ->
  Get (Services p) PeeringKey = Some e ->
  String_ g = JoinHostPort gh gp ->
  String_ e = JoinHostPort eh ep ->
  Forall (fun h => strings_Count h "[" = 0%nat /\ strings_Count h "]" = 0%nat)
    [gh; eh] ->
  Forall (fun q => strings_Count q ":" = 0%nat /\
                   strings_Count q "[" = 0%nat /\ strings_Count q "]" = 0%nat)
    [gp; ep] ->
  isValidNeighbor p = Return (String.eqb gh eh).
Proof.
  intros Hg He Hsg Hse Hh Hp.
  inversion Hh as [|? ? [Hgo Hgc] Hh']; subst.
  inversion Hh' as [|? ? [Heo Hec] _]; subst.
  inversion Hp as [|? ? (Hg1 & Hg2 & Hg3) Hp']; subst.
  inversion Hp' as [|? ? (He1 & He2 & He3) _]; subst.
  apply (isValidNeighbor_hosts p g e gh gp eh ep Hg He).
  - rewrite Hsg. now apply SplitHostPort_JoinHostPort.
  - rewrite Hse. now apply SplitHostPort_JoinHostPort.
Qed.

(** An IPv6 candidate with the same host on two ports, and one with
    different hosts. *)
Lemma isValidNeighbor_joined_witness :
  isValidNeighbor (Sample.candidate "[2001:db8::1]:15600" "[2001:db8::1]:14626")
  = Return (String.eqb "2001:db8::1" "2001:db8::1").
Proof.
  apply (isValidNeighbor_joined
           (Sample.candidate "[2001:db8::1]:15600" "[2001:db8::1]:14626")
           {| Network := "tcp"; String_ := "[2001:db8::1]:15600" |}
           {| Network := "udp"; String_ := "[2001:db8::1]:14626" |}
           "2001:db8::1" "15600" "2001:db8::1" "14626");
    try (vm_compute; reflexivity);
    repeat constructor.
Defined.

(** ** base64: decoding what was encoded *)

Lemma small_testbit (a k n : N) :
  (a < 2 ^ k)%N -> (k <= n)%N -> N.testbit a n = false.
Proof.
  intros Ha Hn. destruct (N.eq_dec a 0%N) as [->|Hz]; [apply N.bits_0|].
  apply N.bits_above_log2.
  apply N.lt_le_trans with k; [|exact Hn].
  apply N.log2_lt_pow2; [lia|exact Ha].
Qed.

Lemma lor_add_mul (m k b : N) :
  (b < 2 ^ k)%N -> N.lor (m * 2 ^ k) b = (m * 2 ^ k + b)%N.
Proof.
  intros Hb.
  assert (H0 : N.land (m * 2 ^ k) b = 0%N).
  { apply N.bits_inj. intros n. rewrite N.land_spec, N.bits_0.
    destruct (N.lt_ge_cases n k) as [Hlt|Hge].
    - now rewrite N.mul_pow2_bits_low.
    - rewrite (small_testbit b k n Hb Hge). apply andb_false_r. }
  now rewrite <- N.lxor_lor, <- N.add_nocarry_lxor.
Qed.

Lemma byteN_bound (a : Byte.byte) : (byteN a < 256)%N.
Proof. unfold byteN. pose proof (Byte.to_N_bounded a). lia. Qed.

Lemma byte_of_byteN (a : Byte.byte) : byte_of_ascii (ascii_of_N (byteN a)) = a.
Proof. destruct a; reflexivity. Qed.

(** The 24 bits of three bytes, as a number. *)
Lemma group_value (x y z : N) :
  (x < 256)%N -> (y < 256)%N -> (z < 256)%N ->
  N.lor (N.lor (N.shiftl x 16) (N.shiftl y 8)) z
  = (x * 65536 + y * 256 + z)%N.
Proof.
  intros Hx Hy Hz. rewrite !N.shiftl_mul_pow2.
  replace (x * 2 ^ 16)%N with ((x * 256) * 2 ^ 8)%N by (simpl N.pow; lia).
  replace (N.lor (x * 256 * 2 ^ 8) (y * 2 ^ 8))
    with ((x * 256 + y) * 2 ^ 8)%N.
  - rewrite lor_add_mul by (simpl N.pow; lia). simpl N.pow. lia.
  - replace (y * 2 ^ 8)%N with (N.shiftl y 8) by apply N.shiftl_mul_pow2.
    replace (x * 256 * 2 ^ 8)%N with (N.shiftl (x * 256) 8)
      by apply N.shiftl_mul_pow2.
    rewrite <- N.shiftl_lor, N.shiftl_mul_pow2.
    replace (x * 256)%N with (x * 2 ^ 8)%N by (simpl N.pow; lia).
    now rewrite lor_add_mul by (simpl N.pow; lia).
Qed.

(** The sextets of a 24-bit number, put together again. *)
Lemma sextets_value (s0 s1 s2 s3 : N) :
  (s1 < 64)%N -> (s2 < 64)%N -> (s3 < 64)%N ->
  N.lor (N.lor (N.shiftl s0 18) (N.shiftl s1 12)) (N.lor (N.shiftl s2 6) s3)
  = (s0 * 262144 + s1 * 4096 + s2 * 64 + s3)%N.
Proof.
  intros H1 H2 H3.
  assert (E1 : N.lor (N.shiftl s2 6) s3 = (s2 * 64 + s3)%N).
  { rewrite N.shiftl_mul_pow2, lor_add_mul by (simpl N.pow; lia).
    simpl N.pow. lia. }
  assert (E2 : N.lor (N.shiftl s0 18) (N.shiftl s1 12)
               = ((s0 * 64 + s1) * 2 ^ 12)%N).
  { replace (N.shiftl s0 18) with (N.shiftl (s0 * 2 ^ 6) 12)
      by (rewrite !N.shiftl_mul_pow2; simpl N.pow; lia).
    rewrite <- N.shiftl_lor, lor_add_mul by (simpl N.pow; lia).
    rewrite N.shiftl_mul_pow2. simpl N.pow. lia. }
  rewrite E1, E2, lor_add_mul by (simpl N.pow; lia). simpl N.pow. lia.
Qed.

Lemma land_63_bound (v : N) : (N.land v 63 < 64)%N.
Proof.
  change 63%N with (N.ones 6). rewrite N.land_ones.
  apply N.mod_lt. discriminate.
Qed.

Lemma sextet_cases (P : N -> Prop) :
  (forall n : nat, (n < 64)%nat -> P (N.of_nat n)) ->
  forall w : N, (w < 64)%N -> P w.
Proof.
  intros H w Hw. rewrite <- (N2Nat.id w). apply H. lia.
Qed.

(** Every character of the alphabet decodes to the sextet it encodes, and
    none is an at sign. *)
Lemma decodeMap_encodeStd (v : N) :
  decodeMap (encodeStd v) = Some (N.land v 63) /\
  Ascii.eqb (encodeStd v) "@" = false.
Proof.
  assert (H : forall w, (w < 64)%N ->
                        decodeMap (encodeStd w) = Some w /\
                        Ascii.eqb (encodeStd w) "@" = false).
  { apply sextet_cases. intros n Hn.
    do 64 (destruct n as [|n]; [split; vm_compute; reflexivity|]). lia. }
  destruct (H (N.land v 63) (land_63_bound v)) as [H1 H2].
  assert (E : encodeStd (N.land v 63) = encodeStd v).
  { unfold encodeStd. cbv zeta.
    replace (N.land (N.land v 63) 63) with (N.land v 63); [reflexivity|].
    now rewrite <- N.land_assoc. }
  now rewrite <- E.
Qed.

Lemma Decode_sextet c v rest si total dbuf out :
  decodeMap c = Some v ->
  Decode (String c rest) si total dbuf out =
  if (length (dbuf ++ [v]) =? 4)%nat
  then Decode rest (si + 1) total [] (out ++ assemble (dbuf ++ [v]) 4)
  else Decode rest (si + 1) total (dbuf ++ [v]) out.
Proof. intros H. simpl Decode. now rewrite H. Qed.

(** Four characters of the alphabet make three bytes. *)
Lemma Decode_quantum (v0 v1 v2 v3 : N) rest si total out :
  Decode (String (encodeStd v0) (String (encodeStd v1)
            (String (encodeStd v2) (String (encodeStd v3) rest))))
    si total [] out =
  Decode rest (si + 1 + 1 + 1 + 1) total []
    (out ++ assemble [N.land v0 63; N.land v1 63; N.land v2 63; N.land v3 63] 4).
Proof.
  rewrite (Decode_sextet _ _ _ _ _ _ _ (proj1 (decodeMap_encodeStd v0))).
  cbn [app length Nat.eqb].
  rewrite (Decode_sextet _ _ _ _ _ _ _ (proj1 (decodeMap_encodeStd v1))).
  cbn [app length Nat.eqb].
  rewrite (Decode_sextet _ _ _ _ _ _ _ (proj1 (decodeMap_encodeStd v2))).
  cbn [app length Nat.eqb].
  rewrite (Decode_sextet _ _ _ _ _ _ _ (proj1 (decodeMap_encodeStd v3))).
  reflexivity.
Qed.

(** Two characters and two pads make one byte. *)
Lemma Decode_pad2 (v0 v1 : N) si total out :
  Decode (String (encodeStd v0) (String (encodeStd v1) "==")) si total [] out
  = (out ++ assemble [N.land v0 63; N.land v1 63] 2, None).
Proof.
  rewrite (Decode_sextet _ _ _ _ _ _ _ (proj1 (decodeMap_encodeStd v0))).
  cbn [app length Nat.eqb].
  rewrite (Decode_sextet _ _ _ _ _ _ _ (proj1 (decodeMap_encodeStd v1))).
  reflexivity.
Qed.

(** Three characters and a pad make two bytes. *)
Lemma Decode_pad1 (v0 v1 v2 : N) si total out :
  Decode (String (encodeStd v0) (String (encodeStd v1)
            (String (encodeStd v2) "="))) si total [] out
  = (out ++ assemble [N.land v0 63; N.land v1 63; N.land v2 63] 3, None).
Proof.
  rewrite (Decode_sextet _ _ _ _ _ _ _ (proj1 (decodeMap_encodeStd v0))).
  cbn [app length Nat.eqb].
  rewrite (Decode_sextet _ _ _ _ _ _ _ (proj1 (decodeMap_encodeStd v1))).
  cbn [app length Nat.eqb].
  rewrite (Decode_sextet _ _ _ _ _ _ _ (proj1 (decodeMap_encodeStd v2))).
  reflexivity.
Qed.

Lemma assemble_4 (x y z : N) :
  (x < 256)%N -> (y < 256)%N -> (z < 256)%N ->
  assemble
    [N.land (N.shiftr (x * 65536 + y * 256 + z) 18) 63;
     N.land (N.shiftr (x * 65536 + y * 256 + z) 12) 63;
     N.land (N.shiftr (x * 65536 + y * 256 + z) 6) 63;
     N.land (x * 65536 + y * 256 + z) 63] 4
  = [byte_of_ascii (ascii_of_N x); byte_of_ascii (ascii_of_N y);
     byte_of_ascii (ascii_of_N z)].
Proof.
  intros Hx Hy Hz. unfold assemble. cbv zeta. cbn [nth firstn Nat.sub].
  rewrite sextets_value by apply land_63_bound.
  rewrite N.shiftr_0_r.
  set (val := (x * 65536 + y * 256 + z)%N).
  assert (E : (N.land (N.shiftr val 18) 63 * 262144
               + N.land (N.shiftr val 12) 63 * 4096
               + N.land (N.shiftr val 6) 63 * 64 + N.land val 63)%N = val).
  { to_arith. unfold val. euclid. }
  rewrite E. repeat f_equal; unfold val; to_arith; euclid.
Qed.

Lemma assemble_3 (x y : N) :
  (x < 256)%N -> (y < 256)%N ->
  assemble
    [N.land (N.shiftr (x * 65536 + y * 256) 18) 63;
     N.land (N.shiftr (x * 65536 + y * 256) 12) 63;
     N.land (N.shiftr (x * 65536 + y * 256) 6) 63] 3
  = [byte_of_ascii (ascii_of_N x); byte_of_ascii (ascii_of_N y)].
Proof.
  intros Hx Hy. unfold assemble. cbv zeta. cbn [nth firstn Nat.sub].
  rewrite sextets_value by (try apply land_63_bound; lia).
  set (val := (x * 65536 + y * 256)%N).
  assert (E : (N.land (N.shiftr val 18) 63 * 262144
               + N.land (N.shiftr val 12) 63 * 4096
               + N.land (N.shiftr val 6) 63 * 64 + 0)%N = val).
  { to_arith. unfold val. euclid. }
  rewrite E. repeat f_equal; unfold val; to_arith; euclid.
Qed.

Lemma assemble_2 (x : N) :
  (x < 256)%N ->
  assemble
    [N.land (N.shiftr (x * 65536) 18) 63;
     N.land (N.shiftr (x * 65536) 12) 63] 2
  = [byte_of_ascii (ascii_of_N x)].
Proof.
  intros Hx. unfold assemble. cbv zeta. cbn [nth firstn Nat.sub].
  rewrite N.shiftl_0_l, N.lor_0_r.
  replace (N.lor (N.shiftl (N.land (N.shiftr (x * 65536) 18) 63) 18)
             (N.shiftl (N.land (N.shiftr (x * 65536) 12) 63) 12))
    with (x * 65536)%N.
  - repeat f_equal. to_arith. euclid.
  - pose proof (sextets_value (N.land (N.shiftr (x * 65536) 18) 63)
                  (N.land (N.shiftr (x * 65536) 12) 63) 0 0
                  (land_63_bound _)) as E.
    rewrite N.shiftl_0_l, N.lor_0_r in E. rewrite E by lia.
    to_arith. euclid.
Qed.

(** Decoding an encoded key gives the key back, after whatever was decoded
    before. *)
Lemma Decode_EncodeToString (n : nat) : forall bs si total out,
  (length bs <= n)%nat ->
  Decode (EncodeToString bs) si total [] out = (out ++ bs, None).
Proof.
  induction n as [|n IH]; intros bs si total out Hn.
  - destruct bs; [simpl; now rewrite app_nil_r|simpl in Hn; lia].
  - destruct bs as [|a [|b [|c bs]]].
    + simpl. now rewrite app_nil_r.
    + cbn [EncodeToString]. cbv zeta. rewrite Decode_pad2.
      rewrite N.shiftl_mul_pow2. simpl N.pow.
      rewrite assemble_2 by apply byteN_bound.
      now rewrite byte_of_byteN.
    + cbn [EncodeToString]. cbv zeta. rewrite Decode_pad1.
      pose proof (group_value (byteN a) (byteN b) 0 (byteN_bound a)
                    (byteN_bound b) ltac:(lia)) as E.
      rewrite N.lor_0_r, N.add_0_r in E. rewrite E.
      rewrite assemble_3 by apply byteN_bound.
      now rewrite !byte_of_byteN.
    + cbn [EncodeToString]. cbv zeta. rewrite Decode_quantum.
      rewrite (group_value (byteN a) (byteN b) (byteN c))
        by apply byteN_bound.
      rewrite assemble_4 by apply byteN_bound.
      rewrite !byte_of_byteN.
      rewrite IH by (simpl in Hn; lia).
      now rewrite <- app_assoc.
Qed.

Lemma EncodeToString_no_at (n : nat) : forall bs,
  (length bs <= n)%nat -> strings_Count (EncodeToString bs) "@" = 0%nat.
Proof.
  induction n as [|n IH]; intros bs Hn.
  - destruct bs; [reflexivity|simpl in Hn; lia].
  - destruct bs as [|a [|b [|c bs]]]; [reflexivity| | |];
      cbn [EncodeToString]; cbv zeta; cbn [strings_Count];
      rewrite ?(proj2 (decodeMap_encodeStd _)); try reflexivity.
    apply IH. simpl in Hn. lia.
Qed.

Lemma strings_Split_none s c :
  strings_Count s c = 0%nat -> strings_Split s c = [s].
Proof.
  induction s as [|a s IH]; simpl; [reflexivity|].
  destruct (Ascii.eqb a c); [discriminate|]. intros H. now rewrite IH.
Qed.

Lemma strings_Split_joined k a c :
  strings_Count k c = 0%nat -> strings_Count a c = 0%nat ->
  strings_Split (k +:+ String c a) c = [k; a].
Proof.
  intros Hk Ha. induction k as [|x k IH].
  - rewrite append_empty. simpl. rewrite Ascii.eqb_refl.
    now rewrite strings_Split_none.
  - rewrite append_String. simpl in *.
    destruct (Ascii.eqb x c); [discriminate|]. now rewrite IH.
Qed.

(** ** The key a node logs and the key an entry node is given by *)

(** X15: decoding the base64 text of a key gives the key back, so the
    [PublicKey] text that [start] logs can be used as the key part of an
    entry-node descriptor: for every key [pk] and every address without at
    sign that parses and resolves, the descriptor made of the encoded key,
    an at sign and the address parses to one peer, whose public key is
    [pk]. *)
Theorem logged_key_reparses (env : Env) (pk : list Byte.byte) (addr : string)
    (entryAddr : OriginAddress) (ips : IPAddresses env) :
  strings_Count addr "@" = 0%nat ->
  ParseOriginAddress env addr = inr entryAddr ->
  GetIPAddressesFromHost env (Addr entryAddr) = inr ips ->
  DecodeString (EncodeToString pk) = (pk, None) /\
  exists p,
    parseEntryNodes_of env [EncodeToString pk +:+ "@" +:+ addr] = ([p], None) /\
    PublicKey p = pk /\
    parsedFrom env (EncodeToString pk +:+ "@" +:+ addr) p.
Proof.
  intros Hat Ha Hi.
  assert (Hdec : DecodeString (EncodeToString pk) = (pk, None)).
  { unfold DecodeString.
    now rewrite (Decode_EncodeToString (length pk)). }
  split; [exact Hdec|].
  assert (Hs : strings_Split (EncodeToString pk +:+ "@" +:+ addr) "@"
               = [EncodeToString pk; addr]).
  { change (EncodeToString pk +:+ "@" +:+ addr)
      with (EncodeToString pk +:+ String "@" addr).
    apply strings_Split_joined; [|exact Hat].
    now apply (EncodeToString_no_at (length pk)). }
  assert (Hwf : wellFormed env (EncodeToString pk +:+ "@" +:+ addr)).
  { now exists (EncodeToString pk), addr, pk, entryAddr, ips. }
  destruct (parseEntryNode_wellFormed env _ Hwf) as (p & Hp & Hfrom).
  exists p. split; [|split; [|exact Hfrom]].
  - rewrite parseEntryNodes_of_single, Hp.
    apply wellFormed_nonempty, String.eqb_neq in Hwf. now rewrite Hwf.
  - destruct Hfrom as (key & addr' & oa & ips' & ep & Hs' & Hk & _).
    rewrite Hs in Hs'. injection Hs' as <- <-.
    rewrite Hdec in Hk. now injection Hk.
Qed.

(** The key of the example host, given to another node as entry node. *)
Lemma logged_key_reparses_witness :
  DecodeString (EncodeToString (PublicKey Sample.localPeer))
  = (PublicKey Sample.localPeer, None) /\
  exists p,
    parseEntryNodes_of Sample.quiet
      [EncodeToString (PublicKey Sample.localPeer) +:+ "@" +:+ "192.0.2.7:14626"]
    = ([p], None) /\
    PublicKey p = PublicKey Sample.localPeer /\
    parsedFrom Sample.quiet
      (EncodeToString (PublicKey Sample.localPeer) +:+ "@" +:+ "192.0.2.7:14626")
      p.
Proof.
  apply (logged_key_reparses Sample.quiet (PublicKey Sample.localPeer)
           "192.0.2.7:14626" {| Addr := "192.0.2.7"; Port := 14626 |}
           ["192.0.2.7"]); reflexivity.
Defined.

(** ** The end point of an entry node *)

Lemma itoa_clean n :
  strings_Count (itoa n) ":" = 0%nat /\
  strings_Count (itoa n) "[" = 0%nat /\
  strings_Count (itoa n) "]" = 0%nat.
Proof.
  unfold itoa. generalize (N.to_uint n). intros d.
  repeat apply conj; induction d; simpl; rewrite ?IHd; reflexivity.
Qed.

(** A host with a colon and no bracket, then a colon and a port. *)
Lemma SplitHostPort_bare_colons h p :
  strings_Count h ":" <> 0%nat -> strings_Count h "[" = 0%nat ->
  strings_Count p ":" = 0%nat ->
  SplitHostPort (h +:+ String ":" p)
  = inl (AddrError tooManyColons (h +:+ String ":" p)).
Proof.
  intros Hhc Hho Hpc. unfold SplitHostPort. cbv zeta.
  rewrite (LastIndexByteString_app_sep h p ":")
    by now apply LastIndexByteString_none.
  pose proof (len_nonneg h) as Hl.
  destruct (len h <? 0) eqn:E; [apply Z.ltb_lt in E; lia|clear E].
  assert (Hb : bool_decide (byteAt (h +:+ String ":" p) 0 = Some "["%char)
               = false).
  { apply bool_decide_eq_false_2.
    destruct h as [|x h]; [now destruct Hhc|].
    rewrite append_String, byteAt_0. intros [= ->].
    simpl in Hho. discriminate. }
  rewrite Hb, slice_prefix.
  destruct (IndexByteString_spec h ":") as [[Hc _]|[_ Hi]]; [now destruct Hhc|].
  destruct (0 <=? IndexByteString h ":") eqn:E; [reflexivity|].
  apply Z.leb_gt in E. lia.
Qed.

(** X16: the peering end point of a parsed entry node is the text of the
    chosen IP address, a colon and the decimal port, as written by the
    format [%s:%d].  It splits into that address and port when the address
    text holds no colon and no bracket, and into the bare address and the
    port when the text is an address in brackets; when the text holds a
    colon and no bracket, [SplitHostPort] refuses the end point for too
    many colons. *)
Theorem entry_node_endpoint_splits (env : Env) (d key addr : string)
    (pubKey : list Byte.byte) (entryAddr : OriginAddress)
    (ips : IPAddresses env) :
  strings_Split d "@" = [key; addr] ->
  DecodeString key = (pubKey, None) ->
  ParseOriginAddress env addr = inr entryAddr ->
  GetIPAddressesFromHost env (Addr entryAddr) = inr ips ->
  exists p endpoint,
    parseEntryNodes_of env [d] = ([p], None) /\
    Get (Services p) PeeringKey = Some endpoint /\
    String_ endpoint
    = (ToString env
         (GetPreferredAddress env ips (GetBool env "network.prefer_ipv6"))
       +:+ ":" +:+ itoa (Port entryAddr)) /\
    (strings_Count
       (ToString env
          (GetPreferredAddress env ips (GetBool env "network.prefer_ipv6")))
       ":" = 0%nat ->
     strings_Count
       (ToString env
          (GetPreferredAddress env ips (GetBool env "network.prefer_ipv6")))
       "[" = 0%nat ->
     strings_Count
       (ToString env
          (GetPreferredAddress env ips (GetBool env "network.prefer_ipv6")))
       "]" = 0%nat ->
     SplitHostPort (String_ endpoint)
     = inr (ToString env
              (GetPreferredAddress env ips (GetBool env "network.prefer_ipv6")),
            itoa (Port entryAddr))) /\
    (forall h,
       ToString env
         (GetPreferredAddress env ips (GetBool env "network.prefer_ipv6"))
       = String "[" (h +:+ "]") ->
       strings_Count h "[" = 0%nat -> strings_Count h "]" = 0%nat ->
       SplitHostPort (String_ endpoint) = inr (h, itoa (Port entryAddr))) /\
    (strings_Count
       (ToString env
          (GetPreferredAddress env ips (GetBool env "network.prefer_ipv6")))
       ":" <> 0%nat ->
     strings_Count
       (ToString env
          (GetPreferredAddress env ips (GetBool env "network.prefer_ipv6")))
       "[" = 0%nat ->
     SplitHostPort (String_ endpoint)
     = inl (AddrError tooManyColons (String_ endpoint))).
Proof.
  intros Hs Hk Ha Hi.
  set (ip := ToString env
               (GetPreferredAddress env ips
                  (GetBool env "network.prefer_ipv6"))).
  destruct (itoa_clean (Port entryAddr)) as (Hc & Ho & He).
  exists (NewPeer pubKey
            (Update service_New PeeringKey "udp"
               (ip +:+ ":" +:+ itoa (Port entryAddr)))),
         {| Network := "udp";
            String_ := ip +:+ ":" +:+ itoa (Port entryAddr) |}.
  repeat apply conj.
  - rewrite parseEntryNodes_of_single.
    assert (Hd : d <> "") by (intros ->; discriminate Hs).
    apply String.eqb_neq in Hd. rewrite Hd.
    unfold parseEntryNode. rewrite Hs. simpl. now rewrite Hk, Ha, Hi.
  - apply lookup_insert_eq.
  - reflexivity.
  - intros H1 H2 H3. cbn [String_].
    change (ip +:+ ":" +:+ itoa (Port entryAddr))
      with (ip +:+ String ":" (itoa (Port entryAddr))).
    now apply SplitHostPort_plain.
  - intros h Hip H2 H3. cbn [String_]. rewrite Hip.
    replace (String "[" (h +:+ "]") +:+ ":" +:+ itoa (Port entryAddr))
      with (String "[" (h +:+ String "]" (String ":" (itoa (Port entryAddr))))).
    + now apply SplitHostPort_bracketed.
    + rewrite append_String, append_assoc. reflexivity.
  - intros H1 H2. cbn [String_].
    change (ip +:+ ":" +:+ itoa (Port entryAddr))
      with (ip +:+ String ":" (itoa (Port entryAddr))).
    now apply SplitHostPort_bare_colons.
Qed.

(** An entry node given by an IPv4 address. *)
Lemma entry_node_endpoint_splits_witness :
  exists p endpoint,
    parseEntryNodes_of Sample.quiet ["AQID@10.0.0.1:14626"] = ([p], None) /\
    Get (Services p) PeeringKey = Some endpoint /\
    SplitHostPort (String_ endpoint) = inr ("10.0.0.1", "14626").
Proof.
  destruct (entry_node_endpoint_splits Sample.quiet "AQID@10.0.0.1:14626"
              "AQID" "10.0.0.1:14626" ["001"; "002"; "003"]%byte
              {| Addr := "10.0.0.1"; Port := 14626 |} ["10.0.0.1"]
              eq_refl eq_refl eq_refl eq_refl)
    as (p & endpoint & Hp & Hg & _ & Hplain & _).
  exists p, endpoint. repeat apply conj; [exact Hp|exact Hg|].
  apply Hplain; reflexivity.
Defined.

(** ** Decimal text and the port of an entry node *)

Lemma decimal_from_acc d : forall acc : positive,
  decimal_from (Npos acc) (NilEmpty.string_of_uint d)
  = Some (Npos (Pos.of_uint_acc d acc)).
Proof.
  induction d; intros acc;
    cbn [NilEmpty.string_of_uint decimal_from Pos.of_uint_acc];
    try reflexivity;
    match goal with
    | |- context [digit ?c] =>
        change (digit c) with (Some (N_of_ascii c - 48)%N)
    end; cbv beta iota;
    rewrite <- IHd; f_equal; cbn; lia.
Qed.

Lemma decimal_from_of_uint d :
  decimal_from 0 (NilEmpty.string_of_uint d) = Some (N.of_uint d).
Proof.
  induction d; cbn [NilEmpty.string_of_uint decimal_from];
    try reflexivity;
    match goal with
    | |- context [digit ?c] =>
        change (digit c) with (Some (N_of_ascii c - 48)%N)
    end; cbv beta iota;
    [exact IHd | apply (decimal_from_acc d) ..].
Qed.

(** Reading what [itoa] writes gives the number back. *)
Lemma decimal_itoa n : decimal (itoa n) = Some n.
Proof.
  unfold itoa, decimal.
  pose proof (decimal_from_of_uint (N.to_uint n)) as H.
  rewrite DecimalN.Unsigned.of_to in H.
  destruct (NilEmpty.string_of_uint (N.to_uint n)) eqn:E; [|exact H].
  destruct n; [discriminate E|]. cbn in H. discriminate H.
Qed.

Lemma decimal_from_count c s : digit c = None ->
  forall acc n, decimal_from acc s = Some n -> strings_Count s c = 0%nat.
Proof.
  intros Hc. induction s as [|a s IH]; intros acc n; simpl; [reflexivity|].
  destruct (digit a) eqn:Ha; [|discriminate].
  destruct (Ascii.eqb_spec a c) as [->|_]; [congruence|]. apply IH.
Qed.

(** A decimal text holds digits only. *)
Lemma decimal_count c s n :
  digit c = None -> decimal s = Some n -> strings_Count s c = 0%nat.
Proof.
  intros Hc. destruct s; [discriminate|]. apply decimal_from_count, Hc.
Qed.

Lemma portOf_after_colon a b :
  strings_Count b ":" = 0%nat -> portOf (a +:+ String ":" b) = b.
Proof.
  intros Hb. unfold portOf.
  rewrite LastIndexByteString_app_sep by now apply LastIndexByteString_none.
  apply slice_after_sep.
Qed.

Section HostPortFacts.
Variable env : Env.

Lemma hostPortDescriptor_wellFormed d :
  hostPortDescriptor env d -> wellFormed env d.
Proof.
  intros (key & host & port & pubKey & n & ips
          & -> & Hk & Hh & Hd & Hn & Hp & Hi).
  exists key, (host +:+ ":" +:+ port), pubKey,
         {| Addr := host; Port := n |}, ips.
  repeat apply conj; try assumption.
  apply (strings_Split_joined key (host +:+ ":" +:+ port) "@" Hk).
  rewrite strings_Count_append, Hh.
  change (":" +:+ port) with (String ":" port). simpl.
  now apply (decimal_count "@" port n).
Qed.

Lemma parseEntryNode_hostPort d :
  hostPortDescriptor env d ->
  exists p, parseEntryNode env d = inr p /\ entryNodeOf env d p.
Proof.
  intros Hd.
  destruct (parseEntryNode_wellFormed env d (hostPortDescriptor_wellFormed d Hd))
    as (p & Hp & Hfrom).
  exists p. split; [exact Hp|]. split; [exact Hfrom|].
  destruct Hd as (key & host & port & pubKey & n & ips
                  & -> & Hk & Hh & Hdec & Hn & Hparse & Hi).
  destruct Hfrom as (key' & addr' & entryAddr & ips' & endpoint
                     & Hs & _ & Ha & _ & Hget & _ & _ & Hstr & Hport).
  assert (Hsplit : strings_Split (key +:+ "@" +:+ host +:+ ":" +:+ port) "@"
                   = [key; host +:+ ":" +:+ port]).
  { apply (strings_Split_joined key (host +:+ ":" +:+ port) "@" Hk).
    rewrite strings_Count_append, Hh.
    change (":" +:+ port) with (String ":" port). simpl.
    now apply (decimal_count "@" port n). }
  rewrite Hsplit in Hs. injection Hs as <- <-.
  rewrite Hparse in Ha. injection Ha as <-.
  exists n, endpoint. repeat apply conj.
  - replace (key +:+ "@" +:+ host +:+ ":" +:+ port)
      with ((key +:+ "@" +:+ host) +:+ String ":" port)
      by now rewrite !append_assoc.
    rewrite portOf_after_colon; [exact Hn|].
    now apply (decimal_count ":" port n).
  - exact Hget.
  - rewrite Hport. apply decimal_itoa.
Qed.

End HostPortFacts.

(** C6: on a list of descriptors [pubkey@host:port], each well formed on
    this host, the parser succeeds with one peer per descriptor, in order;
    each peer carries the bytes its key segment decodes to and exactly one
    service, the peering end point on udp, and the port of that end point
    denotes the number written after the last colon of the descriptor. *)
Theorem parseEntryNodes_hostPort (env : Env) (l : list string) :
  Forall (hostPortDescriptor env) l ->
  exists ps,
    parseEntryNodes_of env l = (ps, None) /\
    length ps = length l /\
    Forall2 (entryNodeOf env) l ps.
Proof.
  unfold parseEntryNodes_of.
  induction 1 as [|d l Hd _ (ps & Hps & Hlen & Hall)].
  - exists []. repeat split. constructor.
  - destruct (parseEntryNode_hostPort env d Hd) as (p & Hp & Hfrom).
    exists (p :: ps).
    rewrite parseEntryNodes_loop_cons, Hp.
    apply hostPortDescriptor_wellFormed, wellFormed_nonempty,
      String.eqb_neq in Hd.
    rewrite Hd, parseEntryNodes_loop_acc, Hps.
    split; [reflexivity|]. split; [simpl; now rewrite Hlen|].
    now constructor.
Qed.

(** The digit characters are the ones [NilEmpty.uint_of_string] reads. *)
Lemma digit_uint_of_char c v u :
  digit c = Some v -> exists u', uint_of_char c (Some u) = Some u'.
Proof.
  destruct c as [[] [] [] [] [] [] [] []]; cbn; intros H;
    try discriminate H; eauto.
Qed.

Lemma decimal_from_uint s : forall acc n,
  decimal_from acc s = Some n -> exists u, NilEmpty.uint_of_string s = Some u.
Proof.
  induction s as [|c s IH]; intros acc n; simpl; [eauto|].
  destruct (digit c) as [v|] eqn:Hc; [|discriminate].
  intros H. destruct (IH _ _ H) as (u & ->).
  apply (digit_uint_of_char c v u Hc).
Qed.

(** [decimal] agrees with the Standard Library's reader of decimal text. *)
Lemma decimal_uint s n :
  decimal s = Some n ->
  exists u, NilEmpty.uint_of_string s = Some u /\ N.of_uint u = n.
Proof.
  intros H.
  assert (H0 : decimal_from 0 s = Some n) by (destruct s; [discriminate|exact H]).
  destruct (decimal_from_uint s _ _ H0) as (u & Hu).
  exists u. split; [exact Hu|].
  apply NilEmpty.sus in Hu. rewrite <- Hu, decimal_from_of_uint in H0.
  congruence.
Qed.

(** On the sample hosts, whose address parser splits with [SplitHostPort]
    and reads a decimal port below 65536, every descriptor made of a valid
    key, a plain host name that resolves and such a port is well formed. *)
Lemma hostPortDescriptor_sample entryNodes check listen close signal
    key host port pubKey n :
  strings_Count key "@" = 0%nat ->
  DecodeString key = (pubKey, None) ->
  host <> "" -> host <> "unknown.invalid" ->
  strings_Count host "@" = 0%nat ->
  strings_Count host ":" = 0%nat ->
  strings_Count host "[" = 0%nat ->
  strings_Count host "]" = 0%nat ->
  decimal port = Some n -> (n < 65536)%N ->
  hostPortDescriptor (Sample.host entryNodes check listen close signal)
    (key +:+ "@" +:+ host +:+ ":" +:+ port).
Proof.
  intros Hk Hd Hne Hunk Hat Hcolon Hopen Hclose Hn Hlt.
  exists key, host, port, pubKey, n, [host].
  repeat apply conj; try assumption; try reflexivity.
  - cbn [ParseOriginAddress Sample.host]. unfold Sample.parseOrigin.
    change (host +:+ ":" +:+ port) with (host +:+ String ":" port).
    rewrite SplitHostPort_plain;
      try assumption; try (now apply (decimal_count _ port n)).
    destruct (decimal_uint port n Hn) as (u & -> & ->).
    apply N.ltb_lt in Hlt. now rewrite Hlt.
  - cbn [GetIPAddressesFromHost Sample.host]. unfold Sample.resolve.
    apply String.eqb_neq in Hne, Hunk. now rewrite Hne, Hunk.
Qed.

(** Two entry nodes, the second with a longer key and a port written with
    a leading zero. *)
Lemma parseEntryNodes_hostPort_witness :
  exists ps,
    parseEntryNodes_of Sample.quiet
      ["AQID@10.0.0.1:14626"; "aGVsbG8gd29ybGQ=@192.0.2.9:080"] = (ps, None) /\
    length ps = 2%nat /\
    Forall2 (entryNodeOf Sample.quiet)
      ["AQID@10.0.0.1:14626"; "aGVsbG8gd29ybGQ=@192.0.2.9:080"] ps.
Proof.
  apply (parseEntryNodes_hostPort Sample.quiet
           ["AQID@10.0.0.1:14626"; "aGVsbG8gd29ybGQ=@192.0.2.9:080"]).
  repeat constructor.
  - exists "AQID", "10.0.0.1", "14626", ["001"; "002"; "003"]%byte,
           14626%N, ["10.0.0.1"].
    repeat apply conj; vm_compute; reflexivity.
  - exists "aGVsbG8gd29ybGQ=", "192.0.2.9", "080",
           ["h"; "e"; "l"; "l"; "o"; " "; "w"; "o"; "r"; "l"; "d"]%byte,
           80%N, ["192.0.2.9"].
    repeat apply conj; vm_compute; reflexivity.
Defined.
